(** * The local-directory source of img (source/local/local.go)

    A shallow embedding of [localSourceHandler.CacheKey] and
    [localSourceHandler.Snapshot], and the properties of them that the
    specification of the local-directory cache states.

    CacheKey is a function of the identifier and the context; what it calls
    of the Go libraries (json.Marshal, SHA-256) is written out.  Snapshot is a
    computation over a world that its collaborators act on (the cache
    manager, the metadata store, the mounter, the content hashes, the
    copier): they are the operations of the class [Collaborators], and every
    theorem about Snapshot holds whatever they do.  A run of Snapshot gives
    its result, the world it leaves and the list of the calls it made; the
    theorems read that list.  [Mem] is one instance, in memory, on which the
    scenarios of the specification are run.

    [NewSource] and [Resolve] of the same file are embedded as functions.
    [Client.createWorkerOpt] of client/workeropt.go is embedded in the
    module [client], the way Snapshot is: a computation over the host, with
    what it calls in other packages as the operations of the class
    [Packages].

    Go strings are byte strings: [string] of the Standard Library (a list of
    [ascii], one per byte).  A Go slice is [option (list _)], [None] being the
    nil slice, which encoding/json prints as [null] and not as [[]].  A Go
    [map[string]string] is a [gmap string string]; reading an absent key gives
    the empty string. *)

From stdpp Require Import gmap strings list pretty.
From Stdlib Require Import Ascii String NArith.

Open Scope string_scope.

(** ** Errors and results *)

(** The error values [Snapshot] and [CacheKey] can return.  [NoSession] is the
    value both functions make themselves, with
    [errors.New("could not access local files without session")] (lines 74 and
    92); every other error is one a collaborator returned, handed on unchanged
    ([return nil, err]).  Collaborators report their errors as messages. *)
Inductive error : Type :=
| NoSession
| Propagated (cause : string).

(** [(T, error)] as returned by the functions of this package. *)
Definition Result (A : Type) : Type := error + A.
(** [(T, error)] as returned by a collaborator. *)
Definition Fallible (A : Type) : Type := string + A.

Abbreviation Err e := (inl e) (only parsing).
Abbreviation Ok a := (inr a) (only parsing).

Definition is_Err {E A : Type} (r : E + A) : bool :=
  match r with inl _ => true | inr _ => false end.

(** ** source.LocalIdentifier, session context, handler *)

Definition slice (A : Type) : Type := option (list A).

Record LocalIdentifier : Type := {
  Name : string;
  SessionID : string;
  IncludePatterns : slice string;
  ExcludePatterns : slice string;
  SharedKeyHint : string
}.

(** [context.Context], as far as this package reads it: the session ID that
    [session.FromContext] finds in it, empty when there is none. *)
Record Context : Type := { ctx_session : string }.

Definition session_FromContext (ctx : Context) : string := ctx_session ctx.

(** [localSourceHandler]: the identifier and, from the embedded
    [localSource], the name-to-host-path mapping [ld].  The collaborators
    [cm] and [md] are the class [Collaborators] below. *)
Record localSourceHandler : Type := {
  src : LocalIdentifier;
  ld : gmap string string
}.

(** [ls.ld[name]]: a Go map read, the zero value for an absent key. *)
Definition ld_lookup (ls : localSourceHandler) (name : string) : string :=
  default EmptyString (ld ls !! name).

(** ** NewSource and Resolve (lines 24-61) *)

(** [Opt] and [localSource].  The cache accessor and the metadata store
    are the collaborators of Snapshot; what is left of the two structs is
    the mapping from names to host directories. *)
Record Opt : Type := { LocalDirs : gmap string string }.
Record localSource : Type := { source_ld : gmap string string }.

Definition NewSource (opt : Opt) : Fallible localSource :=
  let ls := {| source_ld := LocalDirs opt |} in
  Ok ls.

(** A [source.Identifier], as the type assertion of line 52 tells them
    apart: nil; a [*source.LocalIdentifier], which may be a nil pointer; a
    value of another type, with the text that the verb [%v] prints for
    it. *)
Inductive Identifier : Type :=
| NilIdentifier
| LocalIdentifierPointer (p : option LocalIdentifier)
| OtherIdentifier (text : string).

(** [fmt.Sprintf("%v", id)] for the identifiers that line 54 prints. *)
Definition fmt_v (id : Identifier) : string :=
  match id with
  | NilIdentifier => "<nil>"
  | OtherIdentifier text => text
  | LocalIdentifierPointer _ => EmptyString
  end.

(** What a call of Resolve comes to: it returns, or it panics. *)
Inductive Resolved : Type :=
| Returned (r : Fallible localSourceHandler)
| Panicked.

(** Lines 51-61.  The assertion holds for every [*source.LocalIdentifier],
    nil included; line 58 dereferences the pointer. *)
Definition Resolve (ls : localSource) (id : Identifier) : Resolved :=
  match id with
  | LocalIdentifierPointer localIdentifier =>
      match localIdentifier with
      | Some l => Returned (Ok {| src := l; ld := source_ld ls |})
      | None => Panicked
      end
  | _ => Returned (Err ("invalid local identifier " +:+ fmt_v id))
  end.

(** ** encoding/json, as [json.Marshal] prints strings and string slices *)

Definition quot : string := String (ascii_of_nat 34) EmptyString.
Definition backslash : ascii := ascii_of_nat 92.

Definition hex_digit (n : N) : ascii :=
  ascii_of_N (if (n <? 10)%N then 48 + n else 87 + n)%N.

(** [\u00XX] for a byte below 0x80. *)
Definition json_u00 (b : N) : string :=
  String backslash
    (String "u" (String "0" (String "0"
       (String (hex_digit (b / 16)) (String (hex_digit (b mod 16)) EmptyString))))).

(** encoding/json's [htmlSafeSet]: the printable ASCII bytes written as they
    are; the double quote, backslash, and the HTML characters [&], [<] and [>]
    are not among them. *)
Definition htmlSafe (b : N) : bool :=
  (32 <=? b)%N && (b <? 128)%N &&
  negb ((b =? 34) || (b =? 38) || (b =? 60) || (b =? 62) || (b =? 92))%N.

(** What [encodeState.string] writes for one byte below [utf8.RuneSelf]. *)
Definition json_escape_ascii (b : N) : string :=
  if htmlSafe b then String (ascii_of_N b) EmptyString
  else if ((b =? 92) || (b =? 34))%N then String backslash (String (ascii_of_N b) EmptyString)
  else if (b =? 10)%N then String backslash "n"
  else if (b =? 13)%N then String backslash "r"
  else if (b =? 9)%N then String backslash "t"
  else json_u00 b.

(** The next byte of [s], when it lies in [lo..hi]. *)
Definition continuation (lo hi : N) (s : string) : option string :=
  match s with
  | String c rest =>
      if ((lo <=? N_of_ascii c) && (N_of_ascii c <=? hi))%N then Some rest else None
  | EmptyString => None
  end.

(** [utf8.DecodeRuneInString] on a string whose first byte [b0] is 0x80 or
    more, [rest] being what follows: the size of the well-formed encoding that
    starts there, or [0] when there is none (Go then returns [RuneError] with
    size 1). *)
Definition utf8_size (b0 : N) (rest : string) : nat :=
  let tail (n : nat) (o : option string) : nat :=
    match n, o with
    | 0%nat, Some _ => 2%nat
    | 1%nat, Some r => if continuation 128 191 r is Some _ then 3%nat else 0%nat
    | _, Some r =>
        match continuation 128 191 r with
        | Some r' => if continuation 128 191 r' is Some _ then 4%nat else 0%nat
        | None => 0%nat
        end
    | _, None => 0%nat
    end in
  if (b0 <? 194)%N then 0%nat
  else if (b0 <? 224)%N then tail 0%nat (continuation 128 191 rest)
  else if (b0 =? 224)%N then tail 1%nat (continuation 160 191 rest)
  else if (b0 =? 237)%N then tail 1%nat (continuation 128 159 rest)
  else if (b0 <? 240)%N then tail 1%nat (continuation 128 191 rest)
  else if (b0 =? 240)%N then tail 2%nat (continuation 144 191 rest)
  else if (b0 <? 244)%N then tail 2%nat (continuation 128 191 rest)
  else if (b0 =? 244)%N then tail 2%nat (continuation 128 143 rest)
  else 0%nat.

(** U+2028 and U+2029 are E2 80 A8 and E2 80 A9; the last byte is returned. *)
Definition line_separator (b0 : N) (rest : string) : option N :=
  match rest with
  | String c1 (String c2 _) =>
      if ((b0 =? 226) && (N_of_ascii c1 =? 128)
          && ((N_of_ascii c2 =? 168) || (N_of_ascii c2 =? 169)))%N
      then Some (N_of_ascii c2) else None
  | _ => None
  end.

(** Where the scan of [encodeState.string] stands: at a rune boundary, or
    inside a well-formed rune with [k] bytes left, which are written as they
    are ([Pass]) or were already written as an escape ([Skip]). *)
Inductive scan : Type := Boundary | Pass (k : nat) | Skip (k : nat).

(** The loop of [encodeState.string] with [escapeHTML] set, as [json.Marshal]
    runs it in the Go releases of the repository's time: a byte that is not
    part of a well-formed UTF-8 encoding is written as the escape of U+FFFD
    ("String values encode as JSON strings coerced to valid UTF-8, replacing
    invalid bytes with the Unicode replacement rune"). *)
Fixpoint json_escape (st : scan) (s : string) : string :=
  match s with
  | EmptyString => EmptyString
  | String c rest =>
      match st with
      | Pass (S k) => String c (json_escape (Pass k) rest)
      | Skip (S k) => json_escape (Skip k) rest
      | _ =>
          let b := N_of_ascii c in
          if (b <? 128)%N then json_escape_ascii b +:+ json_escape Boundary rest
          else
            match utf8_size b rest with
            | 0%nat =>
                String backslash "ufffd" +:+ json_escape Boundary rest
            | size =>
                match line_separator b rest with
                | Some last =>
                    String backslash "u202" +:+ String (hex_digit (last mod 16)) EmptyString
                      +:+ json_escape (Skip (size - 1)) rest
                | None => String c (json_escape (Pass (size - 1)) rest)
                end
            end
      end
  end.

Definition json_string (s : string) : string :=
  quot +:+ json_escape Boundary s +:+ quot.

(** The elements of an array: a comma before every element but the first. *)
Fixpoint json_more (l : list string) : string :=
  match l with
  | [] => EmptyString
  | x :: rest => "," +:+ json_string x +:+ json_more rest
  end.

Definition json_elements (l : list string) : string :=
  match l with
  | [] => EmptyString
  | x :: rest => json_string x +:+ json_more rest
  end.

Definition json_slice (l : slice string) : string :=
  match l with
  | None => "null"
  | Some l => "[" +:+ json_elements l +:+ "]"
  end.

Definition json_key (k : string) : string := quot +:+ k +:+ quot +:+ ":".

(** [json.Marshal] of the anonymous struct of lines 78-82: the fields in the
    order they are declared, under their Go names.  It cannot fail on strings
    and string slices, so the [err != nil] branch of line 83 is never taken;
    the result type keeps it. *)
Definition json_object (sessionID : string) (includePatterns excludePatterns : slice string)
  : string :=
  "{" +:+ json_key "SessionID" +:+ json_string sessionID
    +:+ "," +:+ json_key "IncludePatterns" +:+ json_slice includePatterns
    +:+ "," +:+ json_key "ExcludePatterns" +:+ json_slice excludePatterns
    +:+ "}".

Definition json_Marshal (sessionID : string) (includePatterns excludePatterns : slice string)
  : Result string :=
  Ok (json_object sessionID includePatterns excludePatterns).

(** *** Reading a JSON string back *)

(** The strings in which the scan of [json_escape] meets no byte outside a
    well-formed UTF-8 encoding, from the state [st] on. *)
Fixpoint utf8_valid (st : scan) (s : string) : bool :=
  match s with
  | EmptyString => match st with Pass (S _) | Skip (S _) => false | _ => true end
  | String c rest =>
      match st with
      | Pass (S k) => (128 <=? N_of_ascii c)%N && utf8_valid (Pass k) rest
      | Skip (S k) => utf8_valid (Skip k) rest
      | _ =>
          let b := N_of_ascii c in
          if (b <? 128)%N then utf8_valid Boundary rest
          else
            match utf8_size b rest with
            | 0%nat => false
            | S k =>
                utf8_valid (if line_separator b rest is Some _ then Skip k else Pass k) rest
            end
      end
  end.

Fixpoint string_drop (k : nat) (s : string) : string :=
  match k, s with
  | S k', String _ rest => string_drop k' rest
  | _, _ => s
  end.

(** What of [s] the scan in state [st] still has to write. *)
Definition unread (st : scan) (s : string) : string :=
  match st with Skip k => string_drop k s | _ => s end.

Definition slice_valid (l : slice string) : bool :=
  match l with
  | None => true
  | Some l => forallb (utf8_valid Boundary) l
  end.

(** Reading a JSON string back, for the escapes [json_string] writes and the
    other [\uXXXX] of the basic plane: the string up to the closing quote, and
    what follows the quote; [None] is a decoding error. *)
Definition hex_value (c : ascii) : option N :=
  let n := N_of_ascii c in
  if ((48 <=? n) && (n <=? 57))%N then Some (n - 48)%N
  else if ((97 <=? n) && (n <=? 102))%N then Some (n - 87)%N
  else if ((65 <=? n) && (n <=? 70))%N then Some (n - 55)%N
  else None.

Definition utf8_encode (cp : N) : string :=
  if (cp <? 128)%N then String (ascii_of_N cp) EmptyString
  else if (cp <? 2048)%N then
    String (ascii_of_N (192 + cp / 64)) (String (ascii_of_N (128 + cp mod 64)) EmptyString)
  else
    String (ascii_of_N (224 + cp / 4096))
      (String (ascii_of_N (128 + (cp / 64) mod 64))
         (String (ascii_of_N (128 + cp mod 64)) EmptyString)).

Definition prepend (p : string) (o : option (string * string)) : option (string * string) :=
  (fun x => (p +:+ x.1, x.2)) <$> o.

Fixpoint json_unescape (s : string) : option (string * string) :=
  match s with
  | EmptyString => None
  | String c rest =>
      if (N_of_ascii c =? 34)%N then Some (EmptyString, rest)
      else if (N_of_ascii c =? 92)%N then
        match rest with
        | String e rest' =>
            let simple (b : N) :=
              prepend (String (ascii_of_N b) EmptyString) (json_unescape rest') in
            if (N_of_ascii e =? 34)%N then simple 34%N
            else if (N_of_ascii e =? 92)%N then simple 92%N
            else if (N_of_ascii e =? 110)%N then simple 10%N
            else if (N_of_ascii e =? 114)%N then simple 13%N
            else if (N_of_ascii e =? 116)%N then simple 9%N
            else if (N_of_ascii e =? 117)%N then
              match rest' with
              | String h1 (String h2 (String h3 (String h4 rest''))) =>
                  match hex_value h1, hex_value h2, hex_value h3, hex_value h4 with
                  | Some a, Some b, Some c, Some d =>
                      prepend (utf8_encode (((a * 16 + b) * 16 + c) * 16 + d))
                        (json_unescape rest'')
                  | _, _, _, _ => None
                  end
              | _ => None
              end
            else None
        | EmptyString => None
        end
      else if (N_of_ascii c <? 32)%N then None
      else prepend (String c EmptyString) (json_unescape rest)
  end.

Definition json_unquote (s : string) : Fallible string :=
  match s with
  | String c body =>
      if (N_of_ascii c =? 34)%N then
        match json_unescape body with
        | Some (str, EmptyString) => Ok str
        | _ => Err "json: invalid string"
        end
      else Err "json: cannot unmarshal into Go value of type string"
  | EmptyString => Err "unexpected end of JSON input"
  end.

(** ** crypto/sha256 (FIPS 180-4), as [digest.FromBytes] uses it

    Words are 32-bit, held in [N] and cut back to 32 bits after every
    addition and rotation. *)

Definition mask32 : N := 4294967295.

Definition add32 (a b : N) : N := N.land (a + b) mask32.

Definition rotr (n x : N) : N :=
  N.land (N.lor (N.shiftr x n) (N.shiftl x (32 - n))) mask32.

Definition sha256_K : list N :=
  [1116352408; 1899447441; 3049323471; 3921009573; 961987163; 1508970993;
   2453635748; 2870763221; 3624381080; 310598401; 607225278; 1426881987;
   1925078388; 2162078206; 2614888103; 3248222580; 3835390401; 4022224774;
   264347078; 604807628; 770255983; 1249150122; 1555081692; 1996064986;
   2554220882; 2821834349; 2952996808; 3210313671; 3336571891; 3584528711;
   113926993; 338241895; 666307205; 773529912; 1294757372; 1396182291;
   1695183700; 1986661051; 2177026350; 2456956037; 2730485921; 2820302411;
   3259730800; 3345764771; 3516065817; 3600352804; 4094571909; 275423344;
   430227734; 506948616; 659060556; 883997877; 958139571; 1322822218;
   1537002063; 1747873779; 1955562222; 2024104815; 2227730452; 2361852424;
   2428436474; 2756734187; 3204031479; 3329325298]%N.

Definition sha256_init : list N :=
  [1779033703; 3144134277; 1013904242; 2773480762; 1359893119; 2600822924;
   528734635; 1541459225]%N.

Definition Ch (x y z : N) : N := N.lxor (N.land x y) (N.land (N.lxor x mask32) z).
Definition Maj (x y z : N) : N :=
  N.lxor (N.lxor (N.land x y) (N.land x z)) (N.land y z).
Definition Sigma0 (x : N) : N := N.lxor (N.lxor (rotr 2 x) (rotr 13 x)) (rotr 22 x).
Definition Sigma1 (x : N) : N := N.lxor (N.lxor (rotr 6 x) (rotr 11 x)) (rotr 25 x).
Definition sigma0 (x : N) : N := N.lxor (N.lxor (rotr 7 x) (rotr 18 x)) (N.shiftr x 3).
Definition sigma1 (x : N) : N := N.lxor (N.lxor (rotr 17 x) (rotr 19 x)) (N.shiftr x 10).

(** [k] bytes of [n], most significant first. *)
Fixpoint big_endian (k : nat) (n : N) : list N :=
  match k with
  | O => []
  | S k' => (N.shiftr n (8 * N.of_nat k') mod 256)%N :: big_endian k' n
  end.

Definition bytes_of (s : string) : list N := N_of_ascii <$> list_ascii_of_string s.

(** The message, the byte 0x80, zeros up to 56 modulo 64, and the length of
    the message in bits on 8 bytes. *)
Definition sha256_pad (msg : list N) : list N :=
  let n := List.length msg in
  (msg ++ [128%N] ++ replicate ((119 - n mod 64) mod 64) 0%N
       ++ big_endian 8 (8 * N.of_nat n))%list.

Fixpoint words_of (bytes : list N) : list N :=
  match bytes with
  | a :: b :: c :: d :: rest =>
      (((a * 256 + b) * 256 + c) * 256 + d)%N :: words_of rest
  | _ => []
  end.

Fixpoint blocks_of (n : nat) (ws : list N) : list (list N) :=
  match n with
  | O => []
  | S n' => take 16 ws :: blocks_of n' (drop 16 ws)
  end.

(** The message schedule: [k] more words after the ones there are. *)
Fixpoint schedule (k : nat) (ws : list N) : list N :=
  match k with
  | O => ws
  | S k' =>
      let t := List.length ws in
      let at_ (i : nat) := List.nth (t - i) ws 0%N in
      schedule k' (ws ++ [add32 (add32 (sigma1 (at_ 2%nat)) (at_ 7%nat))
                                (add32 (sigma0 (at_ 15%nat)) (at_ 16%nat))])%list
  end.

Definition sha256_round (h : list N) (kw : N * N) : list N :=
  match h with
  | [a; b; c; d; e; f; g; hh] =>
      let t1 := add32 (add32 (add32 hh (Sigma1 e)) (add32 (Ch e f g) (fst kw))) (snd kw) in
      let t2 := add32 (Sigma0 a) (Maj a b c) in
      [add32 t1 t2; a; b; c; add32 d t1; e; f; g]
  | _ => h
  end.

Definition sha256_block (h : list N) (block : list N) : list N :=
  let ws := schedule 48 block in
  zip_with add32 h (foldl sha256_round h (zip sha256_K ws)).

Definition hex_of_word (w : N) : string :=
  string_of_list_ascii
    ((fun i : nat => hex_digit (N.shiftr w (4 * N.of_nat i) mod 16)%N)
       <$> [7; 6; 5; 4; 3; 2; 1; 0]%nat).

Definition sha256_hex (msg : string) : string :=
  let ws := words_of (sha256_pad (bytes_of msg)) in
  let h := foldl sha256_block sha256_init (blocks_of (List.length ws / 16) ws) in
  String.concat EmptyString (hex_of_word <$> h).

(** A digit of lower-case hexadecimal. *)
Definition is_lower_hex (c : ascii) : bool :=
  let n := nat_of_ascii c in
  ((48 <=? n) && (n <=? 57) || (97 <=? n) && (n <=? 102))%nat.

(** ** CacheKey (lines 68-87) *)

(** [digest.FromBytes(dt).String()]: the name of the algorithm and the
    SHA-256 of [dt] in hexadecimal. *)
Definition digest_FromBytes (dt : string) : string := "sha256:" +:+ sha256_hex dt.

Definition CacheKey (ls : localSourceHandler) (ctx : Context) : Result string :=
  let sessionID := SessionID (src ls) in
  let resolved : Result string :=
    if String.eqb sessionID "" then
      let id := session_FromContext ctx in
      if String.eqb id "" then Err NoSession else Ok id
    else Ok sessionID in
  match resolved with
  | Err e => Err e
  | Ok sessionID =>
      match json_Marshal sessionID (IncludePatterns (src ls)) (ExcludePatterns (src ls)) with
      | Err e => Err e
      | Ok dt => Ok ("session:" +:+ Name (src ls) +:+ ":" +:+ digest_FromBytes dt)
      end
  end.

(** The session ID lines 69-77 settle on: the identifier's, and the
    context's when the identifier has none. *)
Definition resolved_session (id : LocalIdentifier) (ctx : Context) : string :=
  if String.eqb (SessionID id) "" then session_FromContext ctx else SessionID id.

(** ** The collaborators of Snapshot *)

(** The handles Snapshot holds.  Each is known by the id of the ref it
    belongs to: [mutable.ID()] is [ref_ID]. *)
Record MutableRef : Type := { ref_ID : string }.
Record ImmutableRef : Type := { snap_ID : string }.
(** The [snapshot.Mountable] a ref hands out and the [snapshot.LocalMounter]
    made of it ([lm], line 130). *)
Record Mountable : Type := { mount_ID : string }.
(** The [contenthash.CacheContext] of a ref's metadata ([cc], line 143),
    which the copier updates through [cacheUpdater]. *)
Record CacheContext : Type := { cc_ID : string }.

(** [metadata.Value]: a JSON payload and the index it is filed under. *)
Record Value : Type := { Value_data : string; Index : string }.

(** [metadata.StorageItem]: the record of one ref, [si.Get(k)] being
    [si_values si !! k]. *)
Record StorageItem : Type := { si_ID : string; si_values : gmap string Value }.

Definition keySharedKey : string := "local.sharedKey".

(** What Snapshot calls on [ls.cm], [ls.md], the refs, the mounter, the
    content-hash package and the copier, over a state [W] of the world they
    act on.  [cm_New] is [ls.cm.New(ctx, nil, cache.CachePolicyRetain,
    cache.WithDescription(d))]; [si_Update_SetValue si k v] is
    [si.Update(func(b) error { return si.SetValue(b, k, v) })]. *)
Class Collaborators (W : Type) : Type := {
  md_Search : string -> W -> Fallible (list StorageItem) * W;
  md_Get : string -> W -> StorageItem * W;
  si_Update_SetValue : StorageItem -> string -> Value -> W -> option string * W;
  metadata_NewValue : string -> Fallible Value;
  Value_Unmarshal : Value -> Fallible string;
  cm_GetMutable : string -> W -> Fallible MutableRef * W;
  cm_New : string -> W -> Fallible MutableRef * W;
  ref_Mount : MutableRef -> W -> Fallible Mountable * W;
  ref_Commit : MutableRef -> W -> Fallible ImmutableRef * W;
  ref_Release : MutableRef -> W -> W;
  lm_Mount : Mountable -> W -> Fallible string * W;
  lm_Unmount : Mountable -> W -> option string * W;
  contenthash_GetCacheContext : MutableRef -> W -> Fallible CacheContext * W;
  contenthash_SetCacheContext : MutableRef -> CacheContext -> W -> option string * W;
  fsutils_CopyDir :
    string -> string -> LocalIdentifier -> CacheContext -> W -> option string * W
}.

(** One call of a collaborator, with what it returned. *)
Inductive Event : Type :=
| ESearch (index : string) (r : Fallible (list StorageItem))
| EGetMutable (id : string) (r : Fallible MutableRef)
| ENew (description : string) (r : Fallible MutableRef)
| EMount (m : MutableRef) (r : Fallible Mountable)
| ELocalMount (lm : Mountable) (r : Fallible string)
| EUnmount (lm : Mountable) (r : option string)
| EGetCacheContext (m : MutableRef) (r : Fallible CacheContext)
| ECopyDir (source dest : string) (opts : LocalIdentifier) (cc : CacheContext)
    (r : option string)
| ESetCacheContext (m : MutableRef) (cc : CacheContext) (r : option string)
| EGet (id : string) (si : StorageItem)
| ESetValue (si : StorageItem) (key : string) (v : Value) (r : option string)
| ECommit (m : MutableRef) (r : Fallible ImmutableRef)
| ERelease (m : MutableRef).

(** The named results and the local variables [mutable] and [lm] as they
    stand when the function returns: what the deferred closures read. *)
Record Exit : Type := {
  out : Result ImmutableRef;
  mutable : option MutableRef;
  lm : option Mountable
}.

(** ** Snapshot (lines 89-193) *)

Section Snapshot.

Context {W : Type} `{Collaborators W}.

(** A computation on the world that also lists the collaborator calls it
    makes, in order. *)
Definition M (A : Type) : Type := W -> A * W * list Event.

Definition ret {A : Type} (a : A) : M A := fun w => (a, w, []).

Definition bind {A B : Type} (m : M A) (k : A -> M B) : M B :=
  fun w =>
    let '(a, w1, t1) := m w in
    let '(b, w2, t2) := k a w1 in
    (b, w2, (t1 ++ t2)%list).

Definition call {A : Type} (op : W -> A * W) (ev : A -> Event) : M A :=
  fun w => let '(a, w') := op w in (a, w', [ev a]).

(** [x, err := m; if err != nil { return fail err }]. *)
Definition attempt {A B : Type} (m : M (Fallible A)) (fail : error -> B) (k : A -> M B) : M B :=
  bind m (fun r => match r with Err e => ret (fail (Propagated e)) | Ok a => k a end).

(** [if err := m; err != nil { return fail err }]. *)
Definition require {B : Type} (m : M (option error)) (fail : error -> B) (k : M B) : M B :=
  bind m (fun r => match r with Some e => ret (fail e) | None => k end).

Definition propagate (m : M (option string)) : M (option error) :=
  bind m (fun r => ret (Propagated <$> r)).

Local Notation "x <- m ;; k" := (bind m (fun x => k))
  (at level 100, m at level 10, right associativity).
Local Notation "x <- m 'or' fail ;; k" := (attempt m fail (fun x => k))
  (at level 100, m at level 10, fail at level 10, right associativity).
Local Notation "'ensure' m 'or' fail ;; k" := (require m fail k)
  (at level 100, m at level 10, fail at level 10, right associativity).

(** Lines 102-108: the first match that [GetMutable] gives out, the
    matches before it having failed. *)
Fixpoint range_sis (sis : list StorageItem) : M (option MutableRef) :=
  match sis with
  | [] => ret None
  | si :: sis' =>
      r <- call (cm_GetMutable (si_ID si)) (EGetMutable (si_ID si)) ;;
      match r with
      | Ok m => ret (Some m)
      | Err _ => range_sis sis'
      end
  end.

(** Lines 119-123.  The closure starts [mutable.Release(context.TODO())]
    in a goroutine of its own; here the release is the call. *)
Definition deferred_release (x : Exit) : M unit :=
  match out x, mutable x with
  | Err _, Some m => call (fun w => (tt, ref_Release m w)) (fun _ => ERelease m)
  | _, _ => ret tt
  end.

(** Lines 137-141. *)
Definition deferred_unmount (x : Exit) : M unit :=
  match out x, lm x with
  | Err _, Some lm => _ <- call (lm_Unmount lm) (EUnmount lm) ;; ret tt
  | _, _ => ret tt
  end.

(** Lines 161-183. *)
Definition storeSharedKey (mutable : MutableRef) (sharedKey : string) : M (option error) :=
  si <- call (md_Get (ref_ID mutable)) (EGet (ref_ID mutable)) ;;
  let skipStoreSharedKey : Result bool :=
    match si_values si !! keySharedKey with
    | Some v =>
        match Value_Unmarshal v with
        | Err e => Err (Propagated e)
        | Ok str => Ok (String.eqb str sharedKey)
        end
    | None => Ok false
    end in
  match skipStoreSharedKey with
  | Err e => ret (Some e)
  | Ok true => ret None
  | Ok false =>
      match metadata_NewValue sharedKey with
      | Err e => ret (Some (Propagated e))
      | Ok v =>
          let v := {| Value_data := Value_data v; Index := sharedKey |} in
          propagate (call (si_Update_SetValue si sharedKey v) (ESetValue si sharedKey v))
      end
  end.

(** Lines 143-192, which run under both deferred closures. *)
Definition Snapshot_copy (ls : localSourceHandler) (sharedKey : string)
    (mutable : MutableRef) (lm : Mountable) (dest : string) : M Exit :=
  let fail (mutable : option MutableRef) (lm : option Mountable) (e : error) : Exit :=
    {| out := Err e; mutable := mutable; lm := lm |} in
  cc <- call (contenthash_GetCacheContext mutable) (EGetCacheContext mutable)
    or fail (Some mutable) (Some lm) ;;
  let source := ld_lookup ls (Name (src ls)) in
  ensure propagate (call (fsutils_CopyDir source dest (src ls) cc)
                         (ECopyDir source dest (src ls) cc))
    or fail (Some mutable) (Some lm) ;;
  ensure propagate (call (lm_Unmount lm) (EUnmount lm))
    or fail (Some mutable) (Some lm) ;;
  (* lm = nil *)
  ensure propagate (call (contenthash_SetCacheContext mutable cc)
                         (ESetCacheContext mutable cc))
    or fail (Some mutable) None ;;
  ensure storeSharedKey mutable sharedKey
    or fail (Some mutable) None ;;
  snap <- call (ref_Commit mutable) (ECommit mutable)
    or fail (Some mutable) None ;;
  (* mutable = nil *)
  ret {| out := Ok snap; mutable := None; lm := None |}.

(** Lines 125-141 and what they guard. *)
Definition Snapshot_mount (ls : localSourceHandler) (sharedKey : string)
    (mutable : MutableRef) : M Exit :=
  let fail (lm : option Mountable) (e : error) : Exit :=
    {| out := Err e; mutable := Some mutable; lm := lm |} in
  mount <- call (ref_Mount mutable) (EMount mutable) or fail None ;;
  let lm := mount in
  dest <- call (lm_Mount lm) (ELocalMount lm) or fail (Some lm) ;;
  x <- Snapshot_copy ls sharedKey mutable lm dest ;;
  _ <- deferred_unmount x ;;
  ret x.

Definition sharedKeyOf (ls : localSourceHandler) : string :=
  keySharedKey +:+ ":" +:+ Name (src ls) +:+ ":" +:+ SharedKeyHint (src ls)
    +:+ ":" +:+ ld_lookup ls (Name (src ls)).

Definition description (ls : localSourceHandler) : string :=
  "local source for " +:+ Name (src ls).

Definition Snapshot (ls : localSourceHandler) (ctx : Context) : M (Result ImmutableRef) :=
  let id := session_FromContext ctx in
  if String.eqb id "" then ret (Err NoSession) else
  let sharedKey := sharedKeyOf ls in
  sis <- call (md_Search sharedKey) (ESearch sharedKey) or inl ;;
  found <- range_sis sis ;;
  mutable <- match found with
             | Some m => ret (Ok m)
             | None => call (cm_New (description ls)) (ENew (description ls))
             end or inl ;;
  x <- Snapshot_mount ls sharedKey mutable ;;
  _ <- deferred_release x ;;
  ret (out x).

End Snapshot.

(** ** An in-memory world for the collaborators *)

(** The operations a test can make fail. *)
Inductive Op : Type :=
| OpSearch | OpUpdate | OpNew | OpMount | OpCommit | OpLocalMount | OpUnmount
| OpGetCacheContext | OpSetCacheContext | OpCopyDir.

#[global] Instance Op_eq_dec : EqDecision Op.
Proof. solve_decision. Defined.

(** A ref of the cache manager is held by an operation or free to be
    acquired. *)
Inductive RefState : Type := Held | Idle.

(** Modelled from the spec: the state behind the collaborators of section 6,
    which are packages outside source/local.  [refs] are the refs the mutable
    ref store knows, [created] its creation counter, [items] the per-ref
    key/value records of the metadata index, [index] its indexed values with
    the ref each belongs to, in index order, [mounts] the refs mounted on the
    host, [snapshots] the refs committed so far, and [faults] the operations
    set to fail. *)
Record Mem : Type := {
  refs : gmap string RefState;
  created : nat;
  items : gmap string (gmap string Value);
  index : list (string * string);
  mounts : list string;
  snapshots : list string;
  faults : list Op
}.

Definition fails (op : Op) (w : Mem) : bool := bool_decide (op ∈ faults w).

Definition with_refs (f : gmap string RefState -> gmap string RefState) (w : Mem) : Mem :=
  {| refs := f (refs w); created := created w; items := items w; index := index w;
     mounts := mounts w; snapshots := snapshots w; faults := faults w |}.

Definition with_mounts (f : list string -> list string) (w : Mem) : Mem :=
  {| refs := refs w; created := created w; items := items w; index := index w;
     mounts := f (mounts w); snapshots := snapshots w; faults := faults w |}.

Definition item_of (w : Mem) (id : string) : StorageItem :=
  {| si_ID := id; si_values := default ∅ (items w !! id) |}.

(** Modelled from the spec: [Search(indexedValue) -> []record], the records
    filed under the value, in index order. *)
Definition mem_Search (value : string) (w : Mem) : Fallible (list StorageItem) * Mem :=
  if fails OpSearch w then (Err "metadata: search failed", w)
  else (Ok (item_of w <$> (snd <$> filter (fun e => fst e = value) (index w))), w).

(** Modelled from the spec: [Get(id) -> record]; the record of an unknown id
    is empty. *)
Definition mem_Get (id : string) (w : Mem) : StorageItem * Mem := (item_of w id, w).

(** Modelled from the spec: [record.Update(fn)] around
    [record.SetValue(key, value, indexed)]: the value is stored under the key
    and, when it carries an index, the ref is filed under that index. *)
Definition mem_Update_SetValue (si : StorageItem) (key : string) (v : Value) (w : Mem)
  : option string * Mem :=
  if fails OpUpdate w then (Some "metadata: update failed", w)
  else
    let entry := (Index v, si_ID si) in
    (None,
     {| refs := refs w; created := created w;
        items := <[si_ID si := <[key := v]> (default ∅ (items w !! si_ID si))]> (items w);
        index := if bool_decide (Index v = EmptyString \/ entry ∈ index w)
                 then index w else (index w ++ [entry])%list;
        mounts := mounts w; snapshots := snapshots w; faults := faults w |}).

(** Modelled from the spec: the value of a record, made of a string
    ([metadata.NewValue], JSON inside) and read back as one ([Unmarshal]). *)
Definition mem_NewValue (s : string) : Fallible Value :=
  Ok {| Value_data := json_string s; Index := EmptyString |}.

(** Modelled from the spec: see [mem_NewValue]. *)
Definition mem_Unmarshal (v : Value) : Fallible string := json_unquote (Value_data v).

(** Modelled from the spec: [GetMutable(context, id) -> MutableRef |
    error(not found / in use)]. *)
Definition mem_GetMutable (id : string) (w : Mem) : Fallible MutableRef * Mem :=
  match refs w !! id with
  | Some Idle => (Ok {| ref_ID := id |}, with_refs <[id := Held]> w)
  | Some Held => (Err "cache: ref is locked", w)
  | None => (Err "cache: ref not found", w)
  end.

(** Modelled from the spec: [New(context, parent=none, policy=retain,
    description) -> MutableRef | error]; the new ref is named after the
    creation counter and is held by the caller. *)
Definition mem_New (description : string) (w : Mem) : Fallible MutableRef * Mem :=
  if fails OpNew w then (Err "cache: cannot create ref", w)
  else
    let id := "ref-" +:+ pretty (created w) in
    (Ok {| ref_ID := id |},
     {| refs := <[id := Held]> (refs w); created := S (created w); items := items w;
        index := index w; mounts := mounts w; snapshots := snapshots w;
        faults := faults w |}).

(** Modelled from the spec: [ref.Mount(context, readonly=false) -> Mount |
    error]. *)
Definition mem_Mount (m : MutableRef) (w : Mem) : Fallible Mountable * Mem :=
  if fails OpMount w then (Err "cache: cannot mount", w)
  else (Ok {| mount_ID := ref_ID m |}, w).

(** Modelled from the spec: [ref.Commit(context) -> ImmutableRef | error];
    every commit gives a new immutable ref, and a committed ref is no longer
    held (section 5: not acquirable "until released or committed"). *)
Definition mem_Commit (m : MutableRef) (w : Mem) : Fallible ImmutableRef * Mem :=
  if fails OpCommit w then (Err "cache: commit failed", w)
  else
    (Ok {| snap_ID := "snap-" +:+ pretty (List.length (snapshots w)) |},
     {| refs := <[ref_ID m := Idle]> (refs w); created := created w; items := items w;
        index := index w; mounts := mounts w;
        snapshots := (snapshots w ++ [ref_ID m])%list; faults := faults w |}).

(** Modelled from the spec: [ref.Release(context)]. *)
Definition mem_Release (m : MutableRef) (w : Mem) : Mem :=
  with_refs <[ref_ID m := Idle]> w.

(** Modelled from the spec: the local mount helper, [Mount(mount) ->
    hostPath | error] and [Unmount() -> error]. *)
Definition mem_LocalMount (lm : Mountable) (w : Mem) : Fallible string * Mem :=
  if fails OpLocalMount w then (Err "mount failed", w)
  else (Ok ("/mnt/" +:+ mount_ID lm), with_mounts (cons (mount_ID lm)) w).

(** Modelled from the spec: [Unmount() -> error] of the local mount
    helper. *)
Definition mem_Unmount (lm : Mountable) (w : Mem) : option string * Mem :=
  if fails OpUnmount w then (Some "unmount failed", w)
  else (None, with_mounts (filter (fun id => id <> mount_ID lm)) w).

(** Modelled from the spec: [Load(context, metadataRecord) ->
    ContentHashContext | error].  Of the content hash context and of the
    copier the world keeps only whether they succeed. *)
Definition mem_GetCacheContext (m : MutableRef) (w : Mem) : Fallible CacheContext * Mem :=
  if fails OpGetCacheContext w then (Err "contenthash: load failed", w)
  else (Ok {| cc_ID := ref_ID m |}, w).

(** Modelled from the spec: [Save(context, metadataRecord,
    ContentHashContext) -> error]. *)
Definition mem_SetCacheContext (m : MutableRef) (cc : CacheContext) (w : Mem)
  : option string * Mem :=
  if fails OpSetCacheContext w then (Some "contenthash: save failed", w) else (None, w).

(** Modelled from the spec: [Copy(hostSourcePath, destPath, filterSpec,
    hashCallback) -> error]. *)
Definition mem_CopyDir (source dest : string) (opts : LocalIdentifier) (cc : CacheContext)
    (w : Mem) : option string * Mem :=
  if fails OpCopyDir w then (Some "copy failed", w) else (None, w).

(** Modelled from the spec: the collaborators of section 6 over [Mem]. *)
#[global] Instance mem_collaborators : Collaborators Mem := {|
  md_Search := mem_Search;
  md_Get := mem_Get;
  si_Update_SetValue := mem_Update_SetValue;
  metadata_NewValue := mem_NewValue;
  Value_Unmarshal := mem_Unmarshal;
  cm_GetMutable := mem_GetMutable;
  cm_New := mem_New;
  ref_Mount := mem_Mount;
  ref_Commit := mem_Commit;
  ref_Release := mem_Release;
  lm_Mount := mem_LocalMount;
  lm_Unmount := mem_Unmount;
  contenthash_GetCacheContext := mem_GetCacheContext;
  contenthash_SetCacheContext := mem_SetCacheContext;
  fsutils_CopyDir := mem_CopyDir
|}.

Definition mem_empty : Mem :=
  {| refs := ∅; created := 0; items := ∅; index := []; mounts := []; snapshots := [];
     faults := [] |}.

Definition with_faults (fs : list Op) (w : Mem) : Mem :=
  {| refs := refs w; created := created w; items := items w; index := index w;
     mounts := mounts w; snapshots := snapshots w; faults := fs |}.

(** The end-to-end scenario of the specification: name "work", hint "v1",
    host directory "/tmp/src". *)
Definition work_id : LocalIdentifier :=
  {| Name := "work"; SessionID := EmptyString; IncludePatterns := None;
     ExcludePatterns := None; SharedKeyHint := "v1" |}.

Definition work : localSourceHandler :=
  {| src := work_id; ld := {[ "work" := "/tmp/src" ]} |}.

Definition in_session : Context := {| ctx_session := "session-1" |}.
Definition no_session : Context := {| ctx_session := EmptyString |}.

(** ** Reading a list of calls *)

(** The refs the cache manager handed out. *)
Definition acquired_by (e : Event) : list MutableRef :=
  match e with
  | EGetMutable _ (Ok m) | ENew _ (Ok m) => [m]
  | _ => []
  end.
Definition acquisitions : list Event -> list MutableRef := flat_map acquired_by.

Definition released_by (e : Event) : list MutableRef :=
  match e with ERelease m => [m] | _ => [] end.
Definition releases : list Event -> list MutableRef := flat_map released_by.

Definition committed_by (e : Event) : list MutableRef :=
  match e with ECommit m (Ok _) => [m] | _ => [] end.
Definition commits : list Event -> list MutableRef := flat_map committed_by.

(** The index values written: the ref, the key, the value. *)
Definition written_by (e : Event) : list (string * string * Value) :=
  match e with ESetValue si key v None => [(si_ID si, key, v)] | _ => [] end.
Definition index_writes : list Event -> list (string * string * Value) :=
  flat_map written_by.

(** The calls of [SetValue], whatever they returned. *)
Definition set_by (e : Event) : list (string * string * Value * option string) :=
  match e with ESetValue si key v r => [(si_ID si, key, v, r)] | _ => [] end.
Definition index_calls : list Event -> list (string * string * Value * option string) :=
  flat_map set_by.

Definition is_GetMutable (e : Event) : bool :=
  match e with EGetMutable _ _ => true | _ => false end.
Definition is_New (e : Event) : bool :=
  match e with ENew _ _ => true | _ => false end.

Definition is_acquire (e : Event) : bool := is_GetMutable e || is_New e.

(** The local mounts made, and the mounts [Unmount] was called on. *)
Definition mounted_by (e : Event) : list Mountable :=
  match e with ELocalMount l (Ok _) => [l] | _ => [] end.
Definition local_mounts : list Event -> list Mountable := flat_map mounted_by.

Definition unmounted_by (e : Event) : list Mountable :=
  match e with EUnmount l _ => [l] | _ => [] end.
Definition unmounts : list Event -> list Mountable := flat_map unmounted_by.

Definition commit_failed_by (e : Event) : list MutableRef :=
  match e with ECommit m (Err _) => [m] | _ => [] end.
Definition commit_failures : list Event -> list MutableRef := flat_map commit_failed_by.

Definition copy_failed_by (e : Event) : list string :=
  match e with ECopyDir _ _ _ _ (Some err) => [err] | _ => [] end.
Definition copy_failures : list Event -> list string := flat_map copy_failed_by.

(** The steps that lead to the index write, as they succeed, and the call
    of [SetValue] itself. *)
Inductive Step : Type := Copied | Unmounted | Saved | Indexed.

Definition step_of (e : Event) : list Step :=
  match e with
  | ECopyDir _ _ _ _ None => [Copied]
  | EUnmount _ None => [Unmounted]
  | ESetCacheContext _ _ None => [Saved]
  | ESetValue _ _ _ _ => [Indexed]
  | _ => []
  end.
Definition steps : list Event -> list Step := flat_map step_of.

(** What a run returned, the world it left, the calls it made. *)
Definition result {A W : Type} (run : A * W * list Event) : A := run.1.1.
Definition world {A W : Type} (run : A * W * list Event) : W := run.1.2.
Definition calls {A W : Type} (run : A * W * list Event) : list Event := run.2.



(** The error a call returned.  The errors of [GetMutable] are left out:
    the loop of lines 102-108 passes over them. *)
Definition failure_of (e : Event) : list string :=
  match e with
  | ESearch _ (Err x) | ENew _ (Err x) | EMount _ (Err x) | ELocalMount _ (Err x)
  | EGetCacheContext _ (Err x) | ECommit _ (Err x) => [x]
  | EUnmount _ (Some x) | ECopyDir _ _ _ _ (Some x) | ESetCacheContext _ _ (Some x)
  | ESetValue _ _ _ (Some x) => [x]
  | _ => []
  end.
Definition failures : list Event -> list string := flat_map failure_of.

(** The calls made after the first one that failed. *)
Fixpoint after_first_failure (tr : list Event) : list Event :=
  match tr with
  | [] => []
  | e :: tr' => match failure_of e with [] => after_first_failure tr' | _ => tr' end
  end.

(** The calls of the deferred closures. *)
Definition is_guard (e : Event) : bool :=
  match e with EUnmount _ _ | ERelease _ => true | _ => false end.

Definition unmount_result_of (e : Event) : list (option string) :=
  match e with EUnmount _ r => [r] | _ => [] end.
Definition unmount_results : list Event -> list (option string) :=
  flat_map unmount_result_of.

(** The refs, mounts, paths, cache contexts and records a call was given,
    and those a call returned. *)
Definition ref_used_by (e : Event) : list MutableRef :=
  match e with
  | EMount m _ | EGetCacheContext m _ | ESetCacheContext m _ _ | ECommit m _
  | ERelease m => [m]
  | EGet id _ => [{| ref_ID := id |}]
  | _ => []
  end.
Definition mountable_given_by (e : Event) : list Mountable :=
  match e with EMount _ (Ok l) => [l] | _ => [] end.
Definition mountable_used_by (e : Event) : list Mountable :=
  match e with ELocalMount l _ | EUnmount l _ => [l] | _ => [] end.
Definition dest_given_by (e : Event) : list string :=
  match e with ELocalMount _ (Ok dest) => [dest] | _ => [] end.
Definition dest_used_by (e : Event) : list string :=
  match e with ECopyDir _ dest _ _ _ => [dest] | _ => [] end.
Definition context_given_by (e : Event) : list CacheContext :=
  match e with EGetCacheContext _ (Ok cc) => [cc] | _ => [] end.
Definition context_used_by (e : Event) : list CacheContext :=
  match e with ECopyDir _ _ _ cc _ | ESetCacheContext _ cc _ => [cc] | _ => [] end.
Definition read_by (e : Event) : list StorageItem :=
  match e with EGet _ si => [si] | _ => [] end.
Definition item_set_by (e : Event) : list StorageItem :=
  match e with ESetValue si _ _ _ => [si] | _ => [] end.
Definition copy_source_of (e : Event) : list (string * LocalIdentifier) :=
  match e with ECopyDir source _ opts _ _ => [(source, opts)] | _ => [] end.

(** Every value used is the one value given. *)
Definition all_from {A : Type} (given used : list A) : Prop :=
  match given with
  | [] => used = []
  | [x] => Forall (eq x) used
  | _ => False
  end.

Section StoreDecision.
Context {W : Type} `{Collaborators W}.

(** Lines 161-183 as a table: what is done with the record [si] that
    [md.Get] returned, [sets] being the calls of [SetValue] and [r] what
    Snapshot returns. *)
Definition store_decision (sharedKey : string) (si : StorageItem)
    (sets : list (string * string * Value * option string))
    (r : Result ImmutableRef) : Prop :=
  let write :=
    match metadata_NewValue sharedKey with
    | Err e => sets = [] /\ r = Err (Propagated e)
    | Ok v =>
        exists res,
          sets = [(si_ID si, sharedKey,
                   {| Value_data := Value_data v; Index := sharedKey |}, res)]
          /\ forall e, res = Some e -> r = Err (Propagated e)
    end in
  match si_values si !! keySharedKey with
  | None => write
  | Some v =>
      match Value_Unmarshal v with
      | Err e => sets = [] /\ r = Err (Propagated e)
      | Ok str => if String.eqb str sharedKey then sets = [] else write
      end
  end.

Definition store_reading (sharedKey : string) (tr : list Event)
    (r : Result ImmutableRef) : Prop :=
  match flat_map read_by tr with
  | [] => index_calls tr = []
  | [si] => store_decision sharedKey si (index_calls tr) r
  | _ => False
  end.

End StoreDecision.

(** ** The exit paths of Snapshot, as lists of calls

    Each relation below lists, for one stretch of Snapshot, every way it can
    end: what it returns and which calls it made.  [Snapshot_runs] shows that
    Snapshot follows one of them whatever the collaborators do. *)

Section Runs.

Context {W : Type} `{Collaborators W}.

(** Lines 102-108: [GetMutable] is tried on the matches in order, up to the
    first one it gives out. *)
Inductive acquired : list StorageItem -> option MutableRef -> list Event -> Prop :=
| acquired_none : acquired [] None []
| acquired_hit si sis m :
    acquired (si :: sis) (Some m) [EGetMutable (si_ID si) (Ok m)]
| acquired_miss si sis e found tr :
    acquired sis found tr ->
    acquired (si :: sis) found (EGetMutable (si_ID si) (Err e) :: tr).

Variable ls : localSourceHandler.

(** Lines 161-183. *)
Inductive stored (m : MutableRef) : option error -> list Event -> Prop :=
| stored_skipped si v :
    si_values si !! keySharedKey = Some v ->
    Value_Unmarshal v = Ok (sharedKeyOf ls) ->
    stored m None [EGet (ref_ID m) si]
| stored_unmarshal_error si v e :
    si_values si !! keySharedKey = Some v ->
    Value_Unmarshal v = Err e ->
    stored m (Some (Propagated e)) [EGet (ref_ID m) si]
| stored_newvalue_error si e :
    metadata_NewValue (sharedKeyOf ls) = Err e ->
    stored m (Some (Propagated e)) [EGet (ref_ID m) si]
| stored_written si v r :
    metadata_NewValue (sharedKeyOf ls) = Ok v ->
    stored m (Propagated <$> r)
      [EGet (ref_ID m) si;
       ESetValue si (sharedKeyOf ls)
         {| Value_data := Value_data v; Index := sharedKeyOf ls |} r].

Definition failed (e : string) (m : option MutableRef) (l : option Mountable) : Exit :=
  {| out := Err (Propagated e); mutable := m; lm := l |}.

Definition copy_of (dest : string) (cc : CacheContext) (r : option string) : Event :=
  ECopyDir (ld_lookup ls (Name (src ls))) dest (src ls) cc r.

(** Lines 143-192. *)
Inductive copied (m : MutableRef) (l : Mountable) (dest : string)
  : Exit -> list Event -> Prop :=
| copied_load_error e :
    copied m l dest (failed e (Some m) (Some l)) [EGetCacheContext m (Err e)]
| copied_copy_error cc e :
    copied m l dest (failed e (Some m) (Some l))
      [EGetCacheContext m (Ok cc); copy_of dest cc (Some e)]
| copied_unmount_error cc e :
    copied m l dest (failed e (Some m) (Some l))
      [EGetCacheContext m (Ok cc); copy_of dest cc None; EUnmount l (Some e)]
| copied_save_error cc e :
    copied m l dest (failed e (Some m) None)
      [EGetCacheContext m (Ok cc); copy_of dest cc None; EUnmount l None;
       ESetCacheContext m cc (Some e)]
| copied_store_error cc e tr :
    stored m (Some e) tr ->
    copied m l dest {| out := Err e; mutable := Some m; lm := None |}
      ([EGetCacheContext m (Ok cc); copy_of dest cc None; EUnmount l None;
        ESetCacheContext m cc None] ++ tr)
| copied_commit_error cc tr e :
    stored m None tr ->
    copied m l dest (failed e (Some m) None)
      ([EGetCacheContext m (Ok cc); copy_of dest cc None; EUnmount l None;
        ESetCacheContext m cc None] ++ tr ++ [ECommit m (Err e)])
| copied_committed cc tr snap :
    stored m None tr ->
    copied m l dest {| out := Ok snap; mutable := None; lm := None |}
      ([EGetCacheContext m (Ok cc); copy_of dest cc None; EUnmount l None;
        ESetCacheContext m cc None] ++ tr ++ [ECommit m (Ok snap)]).

(** Lines 137-141, when the function returns [x]. *)
Definition unmount_guard (x : Exit) (tr : list Event) : Prop :=
  match out x, lm x with
  | Err _, Some l => exists r, tr = [EUnmount l r]
  | _, _ => tr = []
  end.

(** Lines 119-123, when the function returns [x]. *)
Definition release_guard (x : Exit) : list Event :=
  match out x, mutable x with
  | Err _, Some m => [ERelease m]
  | _, _ => []
  end.

(** Lines 125-141 and what they guard. *)
Inductive mounted (m : MutableRef) : Exit -> list Event -> Prop :=
| mounted_mount_error e :
    mounted m (failed e (Some m) None) [EMount m (Err e)]
| mounted_local_error l e :
    mounted m (failed e (Some m) (Some l)) [EMount m (Ok l); ELocalMount l (Err e)]
| mounted_copied l dest x tr u :
    copied m l dest x tr ->
    unmount_guard x u ->
    mounted m x ([EMount m (Ok l); ELocalMount l (Ok dest)] ++ tr ++ u).

Variable ctx : Context.

Inductive Run : Result ImmutableRef -> list Event -> Prop :=
| Run_no_session :
    ctx_session ctx = EmptyString ->
    Run (Err NoSession) []
| Run_search_error e :
    ctx_session ctx <> EmptyString ->
    Run (Err (Propagated e)) [ESearch (sharedKeyOf ls) (Err e)]
| Run_new_error sis tr e :
    ctx_session ctx <> EmptyString ->
    acquired sis None tr ->
    Run (Err (Propagated e))
      (ESearch (sharedKeyOf ls) (Ok sis) :: tr ++ [ENew (description ls) (Err e)])
| Run_reused sis m tr x tr' :
    ctx_session ctx <> EmptyString ->
    acquired sis (Some m) tr ->
    mounted m x tr' ->
    Run (out x) (ESearch (sharedKeyOf ls) (Ok sis) :: tr ++ tr' ++ release_guard x)
| Run_created sis m tr x tr' :
    ctx_session ctx <> EmptyString ->
    acquired sis None tr ->
    mounted m x tr' ->
    Run (out x)
      (ESearch (sharedKeyOf ls) (Ok sis)
         :: tr ++ ENew (description ls) (Ok m) :: tr' ++ release_guard x).

End Runs.

(** ** Runs in the in-memory world *)

(** The scenario twice in a row, nothing changed in between. *)
Definition first_run := Snapshot work in_session mem_empty.
Definition second_run := Snapshot work in_session (world first_run).

(** The index still lists "ref-3" under the shared key, a ref the store no
    longer has, and after it "ref-7", which is free. *)
Definition mem_stale : Mem :=
  {| refs := {[ "ref-7" := Idle ]}; created := 8; items := ∅;
     index := [(sharedKeyOf work, "ref-3"); (sharedKeyOf work, "ref-7")];
     mounts := []; snapshots := []; faults := [] |}.
Definition stale_run := Snapshot work in_session mem_stale.

(** Only the stale entry is left. *)
Definition mem_gone : Mem :=
  {| refs := ∅; created := 4; items := ∅; index := [(sharedKeyOf work, "ref-3")];
     mounts := []; snapshots := []; faults := [] |}.
Definition gone_run := Snapshot work in_session mem_gone.

Definition copy_fault_run := Snapshot work in_session (with_faults [OpCopyDir] mem_empty).
Definition commit_fault_run := Snapshot work in_session (with_faults [OpCommit] mem_empty).

(** The identifier names its session, the context has none. *)
Definition work_s1_id : LocalIdentifier :=
  {| Name := "work"; SessionID := "s1"; IncludePatterns := None;
     ExcludePatterns := None; SharedKeyHint := "v1" |}.
Definition work_s1 : localSourceHandler :=
  {| src := work_s1_id; ld := {[ "work" := "/tmp/src" ]} |}.

(** A name the mapping does not have. *)
Definition docs_id : LocalIdentifier :=
  {| Name := "docs"; SessionID := EmptyString; IncludePatterns := None;
     ExcludePatterns := None; SharedKeyHint := "v1" |}.
Definition docs : localSourceHandler :=
  {| src := docs_id; ld := {[ "work" := "/tmp/src" ]} |}.
Definition docs_run := Snapshot docs in_session mem_empty.

(** ** Cache keys of example identifiers *)

(** What CacheKey hashes: the JSON text of the resolved session ID and the
    two pattern lists. *)
Definition serialization (ls : localSourceHandler) (ctx : Context) : string :=
  json_object (resolved_session (src ls) ctx)
    (IncludePatterns (src ls)) (ExcludePatterns (src ls)).

Definition fields_valid (ls : localSourceHandler) (ctx : Context) : bool :=
  utf8_valid Boundary (resolved_session (src ls) ctx)
  && slice_valid (IncludePatterns (src ls))
  && slice_valid (ExcludePatterns (src ls)).

Definition with_includes (patterns : list string) (ls : localSourceHandler)
  : localSourceHandler :=
  {| src := {| Name := Name (src ls); SessionID := SessionID (src ls);
               IncludePatterns := Some patterns;
               ExcludePatterns := ExcludePatterns (src ls);
               SharedKeyHint := SharedKeyHint (src ls) |};
     ld := ld ls |}.

Definition with_excludes (patterns : list string) (ls : localSourceHandler)
  : localSourceHandler :=
  {| src := {| Name := Name (src ls); SessionID := SessionID (src ls);
               IncludePatterns := IncludePatterns (src ls);
               ExcludePatterns := Some patterns;
               SharedKeyHint := SharedKeyHint (src ls) |};
     ld := ld ls |}.

(** Two file names in Latin-1, "cafE9.txt" and "cafE8.txt" with E9 and E8
    the bytes of the accented letters: neither is UTF-8. *)
Definition cafe_acute : string := "caf" +:+ String (ascii_of_nat 233) ".txt".
Definition cafe_grave : string := "caf" +:+ String (ascii_of_nat 232) ".txt".
Definition work_acute : localSourceHandler := with_excludes [cafe_acute] work.
Definition work_grave : localSourceHandler := with_excludes [cafe_grave] work.

(** The same session, name and patterns as [work] in [in_session], under
    another hint and another host path. *)
Definition work_elsewhere : localSourceHandler :=
  {| src := {| Name := "work"; SessionID := "session-1"; IncludePatterns := None;
               ExcludePatterns := None; SharedKeyHint := "v2" |};
     ld := {[ "work" := "/srv/other" ]} |}.

(** ** createWorkerOpt (client/workeropt.go, lines 29-122) *)

Module client.

(** The objects the constructors of the other packages hand back, each
    known by a name of its own. *)
Record session_Manager : Type := { sm_ID : string }.
Record metadata_Store : Type := { md_ID : string }.
Record executor_Executor : Type := { exe_ID : string }.
Record ctdsnapshot_Snapshotter : Type := { s_ID : string }.
Record fuse_Server : Type := { server_ID : string }.
Record local_Store : Type := { store_ID : string }.
Record bolt_DB : Type := { db_ID : string }.

(** [ctdmetadata.NewDB(db, cs, ss)] (line 77), and [mdb.Snapshotter(name)]:
    the snapshotter registered under the name, nil when there is none. *)
Record ctdmetadata_DB : Type := {
  mdb_db : bolt_DB;
  mdb_cs : local_Store;
  mdb_ss : gmap string ctdsnapshot_Snapshotter
}.
Definition mdb_Snapshotter (mdb : ctdmetadata_DB) (name : string)
  : option ctdsnapshot_Snapshotter :=
  mdb_ss mdb !! name.

(** The closure [gc] of lines 94-97, which runs the garbage collection of
    [mdb], throttled, and returns nil. *)
Record GC : Type := { gc_db : ctdmetadata_DB }.

(** The two values the variable [contentStore] holds: the store of
    [local.NewStore] (line 65), then
    [containerdsnapshot.NewContentStore(mdb.ContentStore(), ns, gc)]
    (line 99). *)
Inductive content_Store : Type :=
| content_Local (s : local_Store)
| content_Namespaced (mdb : ctdmetadata_DB) (ns : string) (gc : GC).

(** [containerdsnapshot.NewSnapshotter(s, cs, md, ns, gc)]. *)
Record snapshot_Snapshotter : Type := {
  ws_snapshotter : option ctdsnapshot_Snapshotter;
  ws_store : content_Store;
  ws_md : metadata_Store;
  ws_ns : string;
  ws_gc : GC
}.

(** [base.Labels(executor, snapshotter)], as the two labels it is given. *)
Record base_Labels : Type := { labels_executor : string; labels_snapshotter : string }.

(** [base.WorkerOpt], with [apply.NewFileSystemApplier(cs)],
    [walking.NewWalkingDiff(cs)] and [ctdmetadata.NewImageStore(mdb)] as
    what they were made of. *)
Record WorkerOpt : Type := {
  ID : string;
  Labels : base_Labels;
  SessionManager : session_Manager;
  MetadataStore : metadata_Store;
  Executor : executor_Executor;
  Snapshotter : snapshot_Snapshotter;
  ContentStore : content_Store;
  Applier : content_Store;
  Differ : content_Store;
  ImageStore : ctdmetadata_DB
}.

(** The fields of [Client] that createWorkerOpt reads and writes. *)
Record Client : Type := {
  root : string;
  backend : string;
  fuseserver : option fuse_Server
}.

Definition set_fuseserver (server : option fuse_Server) (c : Client) : Client :=
  {| root := root c; backend := backend c; fuseserver := server |}.

(** What createWorkerOpt takes from the other packages, over a state [W] of
    the host they act on.  [fuse_NewSnapshotter] returns the snapshotter or
    the error, and the server; [bolt_Open path mode] is
    [bolt.Open(path, mode, nil)]. *)
Class Packages (W : Type) : Type := {
  types_FUSEBackend : string;
  types_NaiveBackend : string;
  types_OverlayFSBackend : string;
  filepath_Join : string -> string -> string;
  getSessionManager : W -> Fallible session_Manager * W;
  metadata_NewStore : string -> W -> Fallible metadata_Store * W;
  system_GetParentNSeuid : W -> Z * W;
  runc_New : string -> bool -> W -> Fallible executor_Executor * W;
  fuse_NewSnapshotter :
    string -> W -> Fallible ctdsnapshot_Snapshotter * option fuse_Server * W;
  native_NewSnapshotter : string -> W -> Fallible ctdsnapshot_Snapshotter * W;
  overlay_NewSnapshotter : string -> W -> Fallible ctdsnapshot_Snapshotter * W;
  local_NewStore : string -> W -> Fallible local_Store * W;
  bolt_Open : string -> N -> W -> Fallible bolt_DB * W;
  mdb_Init : ctdmetadata_DB -> W -> option string * W;
  base_ID : string -> W -> Fallible string * W
}.

(** One call into another package, with what it returned. *)
Inductive Call : Type :=
| CgetSessionManager (r : Fallible session_Manager)
| CNewStore (path : string) (r : Fallible metadata_Store)
| CGetParentNSeuid (euid : Z)
| CruncNew (path : string) (rootless : bool) (r : Fallible executor_Executor)
| CfuseNewSnapshotter (path : string)
    (r : Fallible ctdsnapshot_Snapshotter * option fuse_Server)
| CnativeNewSnapshotter (path : string) (r : Fallible ctdsnapshot_Snapshotter)
| CoverlayNewSnapshotter (path : string) (r : Fallible ctdsnapshot_Snapshotter)
| ClocalNewStore (path : string) (r : Fallible local_Store)
| CboltOpen (path : string) (mode : N) (r : Fallible bolt_DB)
| CInit (mdb : ctdmetadata_DB) (r : option string)
| CbaseID (root : string) (r : Fallible string).

Section createWorkerOpt.

Context {W : Type} `{Packages W}.

(** A computation on the host that also lists the calls it makes. *)
Definition B (A : Type) : Type := W -> A * W * list Call.

Definition ret {A : Type} (a : A) : B A := fun w => (a, w, []).

Definition bind {A C : Type} (m : B A) (k : A -> B C) : B C :=
  fun w =>
    let '(a, w1, t1) := m w in
    let '(b, w2, t2) := k a w1 in
    (b, w2, (t1 ++ t2)%list).

Definition call {A : Type} (op : W -> A * W) (ev : A -> Call) : B A :=
  fun w => let '(a, w') := op w in (a, w', [ev a]).

(** [x, err := m; if err != nil { return opt, err }], [opt] being the zero
    value it is declared with. *)
Definition attempt {A C : Type} (m : B (Fallible A)) (fail : string -> C) (k : A -> B C)
  : B C :=
  bind m (fun r => match r with Err e => ret (fail e) | Ok a => k a end).

Local Notation "x <- m ;; k" := (bind m (fun x => k))
  (at level 100, m at level 10, right associativity).
Local Notation "x <- m 'or' fail ;; k" := (attempt m fail (fun x => k))
  (at level 100, m at level 10, fail at level 10, right associativity).

(** Lines 49-59: the snapshotter of the backend, with the client as the
    assignment of line 51 leaves it; [None] is the default case. *)
Definition newSnapshotter (c : Client)
  : B (option (Client * Fallible ctdsnapshot_Snapshotter)) :=
  let path := filepath_Join (root c) "snapshots" in
  if String.eqb (backend c) types_FUSEBackend then
    r <- call (fuse_NewSnapshotter path) (CfuseNewSnapshotter path) ;;
    ret (Some (set_fuseserver r.2 c, r.1))
  else if String.eqb (backend c) types_NaiveBackend then
    r <- call (native_NewSnapshotter path) (CnativeNewSnapshotter path) ;;
    ret (Some (c, r))
  else if String.eqb (backend c) types_OverlayFSBackend then
    r <- call (overlay_NewSnapshotter path) (CoverlayNewSnapshotter path) ;;
    ret (Some (c, r))
  else ret None.

(** The client as the call leaves it, and the error or the options: on an
    error [opt] is returned as declared, all fields zero. *)
Definition createWorkerOpt (c : Client) : B (Client * Fallible WorkerOpt) :=
  let fail (c : Client) (err : string) : Client * Fallible WorkerOpt := (c, Err err) in
  sm <- call getSessionManager CgetSessionManager or fail c ;;
  let path := filepath_Join (root c) "metadata.db" in
  md <- call (metadata_NewStore path) (CNewStore path) or fail c ;;
  euid <- call system_GetParentNSeuid CGetParentNSeuid ;;
  let path := filepath_Join (root c) "executor" in
  let rootless := negb (euid =? 0)%Z in
  exe <- call (runc_New path rootless) (CruncNew path rootless) or fail c ;;
  chosen <- newSnapshotter c ;;
  match chosen with
  | None => ret (fail c (backend c +:+ " is not a valid snapshots backend"))
  | Some (c, Err err) =>
      ret (fail c ("creating " +:+ backend c +:+ " snapshotter failed: " +:+ err))
  | Some (c, Ok s) =>
      let path := filepath_Join (root c) "content" in
      contentStore <- call (local_NewStore path) (ClocalNewStore path) or fail c ;;
      let path := filepath_Join (root c) "containerdmeta.db" in
      db <- call (bolt_Open path 420) (CboltOpen path 420) or fail c ;;
      let mdb := {| mdb_db := db; mdb_cs := contentStore;
                    mdb_ss := {[ backend c := s ]} |} in
      err <- call (mdb_Init mdb) (CInit mdb) ;;
      match err with
      | Some err => ret (fail c err)
      | None =>
          let imageStore := mdb in
          let gc := {| gc_db := mdb |} in
          let contentStore := content_Namespaced mdb "buildkit" gc in
          id <- call (base_ID (root c)) (CbaseID (root c)) or fail c ;;
          let xlabels := {| labels_executor := "oci";
                            labels_snapshotter := backend c |} in
          ret (c, Ok {| ID := id;
                        Labels := xlabels;
                        SessionManager := sm;
                        MetadataStore := md;
                        Executor := exe;
                        Snapshotter :=
                          {| ws_snapshotter := mdb_Snapshotter mdb (backend c);
                             ws_store := contentStore; ws_md := md;
                             ws_ns := "buildkit"; ws_gc := gc |};
                        ContentStore := contentStore;
                        Applier := contentStore;
                        Differ := contentStore;
                        ImageStore := imageStore |})
      end
  end.

End createWorkerOpt.

(** *** A host to run createWorkerOpt on *)

(** The constructors that a run can make fail. *)
Inductive Constructor : Type :=
| KSessionManager | KMetadataStore | KExecutor | KSnapshotter | KLocalStore
| KBoltDB | KInit | KID.

#[global] Instance Constructor_eq_dec : EqDecision Constructor.
Proof. solve_decision. Defined.

(** The user of the parent namespace and the constructors that fail; what
    has been made so far, in order. *)
Record Host : Type := {
  host_euid : Z;
  host_failing : list Constructor;
  host_made : list string
}.

Definition make {A : Type} (k : Constructor) (what : string) (a : A) (h : Host)
  : Fallible A * Host :=
  if bool_decide (k ∈ host_failing h) then (Err ("cannot make " +:+ what), h)
  else (Ok a, {| host_euid := host_euid h; host_failing := host_failing h;
                 host_made := (host_made h ++ [what])%list |}).

(** Every object is named after the path it is made at; paths are joined
    with a slash. *)
#[global] Instance host_packages : Packages Host := {|
  types_FUSEBackend := "fuse";
  types_NaiveBackend := "naive";
  types_OverlayFSBackend := "overlayfs";
  filepath_Join := fun dir name => dir +:+ "/" +:+ name;
  getSessionManager := make KSessionManager "session manager" {| sm_ID := "sm" |};
  metadata_NewStore := fun path => make KMetadataStore path {| md_ID := path |};
  system_GetParentNSeuid := fun h => (host_euid h, h);
  runc_New := fun path rootless => make KExecutor path {| exe_ID := path |};
  fuse_NewSnapshotter := fun path h =>
    let '(r, h') := make KSnapshotter path {| s_ID := "fuse:" +:+ path |} h in
    (r, match r with Err _ => None | Ok _ => Some {| server_ID := path |} end, h');
  native_NewSnapshotter := fun path =>
    make KSnapshotter path {| s_ID := "native:" +:+ path |};
  overlay_NewSnapshotter := fun path =>
    make KSnapshotter path {| s_ID := "overlay:" +:+ path |};
  local_NewStore := fun path => make KLocalStore path {| store_ID := path |};
  bolt_Open := fun path mode => make KBoltDB path {| db_ID := path |};
  mdb_Init := fun mdb h =>
    if bool_decide (KInit ∈ host_failing h) then (Some "cannot initialize", h)
    else (None, h);
  base_ID := fun root => make KID (root +:+ "/workerid") ("worker-of-" +:+ root)
|}.

Definition host (euid : Z) (failing : list Constructor) : Host :=
  {| host_euid := euid; host_failing := failing; host_made := [] |}.

Definition img (backend : string) : Client :=
  {| root := "/var/img"; backend := backend; fuseserver := None |}.

(** *** Reading a list of calls *)

Inductive Backend : Type := FUSE | Naive | OverlayFS.

(** The case of the switch of line 49 that a backend name selects. *)
Definition backend_of {W : Type} `{Packages W} (name : string) : option Backend :=
  if String.eqb name types_FUSEBackend then Some FUSE
  else if String.eqb name types_NaiveBackend then Some Naive
  else if String.eqb name types_OverlayFSBackend then Some OverlayFS
  else None.

(** The snapshotter constructors called, with their path. *)
Definition snapshotter_call (e : Call) : list (Backend * string) :=
  match e with
  | CfuseNewSnapshotter path _ => [(FUSE, path)]
  | CnativeNewSnapshotter path _ => [(Naive, path)]
  | CoverlayNewSnapshotter path _ => [(OverlayFS, path)]
  | _ => []
  end.

Definition server_returned (e : Call) : list (option fuse_Server) :=
  match e with CfuseNewSnapshotter _ r => [r.2] | _ => [] end.

Definition snapshotter_returned (e : Call) : list ctdsnapshot_Snapshotter :=
  match e with
  | CfuseNewSnapshotter _ (Ok s, _) | CnativeNewSnapshotter _ (Ok s)
  | CoverlayNewSnapshotter _ (Ok s) => [s]
  | _ => []
  end.

(** The error a call returned, and whether the call is a snapshotter
    constructor. *)
Definition call_failure (e : Call) : list (bool * string) :=
  match e with
  | CgetSessionManager (Err x) | CNewStore _ (Err x) | CruncNew _ _ (Err x)
  | ClocalNewStore _ (Err x) | CboltOpen _ _ (Err x) | CbaseID _ (Err x)
  | CInit _ (Some x) => [(false, x)]
  | CfuseNewSnapshotter _ (Err x, _) | CnativeNewSnapshotter _ (Err x)
  | CoverlayNewSnapshotter _ (Err x) => [(true, x)]
  | _ => []
  end.

(** The calls made before the backend is looked at. *)
Definition before_the_switch (e : Call) : bool :=
  match e with
  | CgetSessionManager _ | CNewStore _ _ | CGetParentNSeuid _ | CruncNew _ _ _ => true
  | _ => false
  end.

Definition client_after {W : Type} (run : Client * Fallible WorkerOpt * W * list Call)
  : Client := run.1.1.1.
Definition returned {W : Type} (run : Client * Fallible WorkerOpt * W * list Call)
  : Fallible WorkerOpt := run.1.1.2.
Definition calls_of {W : Type} (run : Client * Fallible WorkerOpt * W * list Call)
  : list Call := run.2.

(** *** The exit paths of createWorkerOpt *)

Section Built.

Context {W : Type} `{Packages W}.

(** Lines 30-43, when they succeed. *)
Definition started (c : Client) (sm : session_Manager) (md : metadata_Store)
    (euid : Z) (exe : executor_Executor) : list Call :=
  [CgetSessionManager (Ok sm);
   CNewStore (filepath_Join (root c) "metadata.db") (Ok md);
   CGetParentNSeuid euid;
   CruncNew (filepath_Join (root c) "executor") (negb (euid =? 0)%Z) (Ok exe)].

(** Lines 49-59: the constructor called for the backend, what it returned
    and the client as it is left. *)
Inductive chosen (c : Client)
  : Client -> Fallible ctdsnapshot_Snapshotter -> Call -> Prop :=
| chosen_fuse r server :
    backend_of (backend c) = Some FUSE ->
    chosen c (set_fuseserver server c) r
      (CfuseNewSnapshotter (filepath_Join (root c) "snapshots") (r, server))
| chosen_native r :
    backend_of (backend c) = Some Naive ->
    chosen c c r (CnativeNewSnapshotter (filepath_Join (root c) "snapshots") r)
| chosen_overlay r :
    backend_of (backend c) = Some OverlayFS ->
    chosen c c r (CoverlayNewSnapshotter (filepath_Join (root c) "snapshots") r).

(** Lines 77-119, from what the calls returned. *)
Definition options (c : Client) (sm : session_Manager) (md : metadata_Store)
    (exe : executor_Executor) (s : ctdsnapshot_Snapshotter) (store : local_Store)
    (db : bolt_DB) (id : string) : WorkerOpt :=
  let mdb := {| mdb_db := db; mdb_cs := store; mdb_ss := {[ backend c := s ]} |} in
  let gc := {| gc_db := mdb |} in
  let contentStore := content_Namespaced mdb "buildkit" gc in
  {| ID := id;
     Labels := {| labels_executor := "oci"; labels_snapshotter := backend c |};
     SessionManager := sm;
     MetadataStore := md;
     Executor := exe;
     Snapshotter := {| ws_snapshotter := mdb_Snapshotter mdb (backend c);
                       ws_store := contentStore; ws_md := md;
                       ws_ns := "buildkit"; ws_gc := gc |};
     ContentStore := contentStore;
     Applier := contentStore;
     Differ := contentStore;
     ImageStore := mdb |}.

(** Every way createWorkerOpt can end: the client it leaves, what it
    returns and the calls it made. *)
Inductive Built (c : Client) : Client * Fallible WorkerOpt -> list Call -> Prop :=
| Built_session_error e :
    Built c (c, Err e) [CgetSessionManager (Err e)]
| Built_metadata_error sm e :
    Built c (c, Err e)
      [CgetSessionManager (Ok sm);
       CNewStore (filepath_Join (root c) "metadata.db") (Err e)]
| Built_executor_error sm md euid e :
    Built c (c, Err e)
      [CgetSessionManager (Ok sm);
       CNewStore (filepath_Join (root c) "metadata.db") (Ok md);
       CGetParentNSeuid euid;
       CruncNew (filepath_Join (root c) "executor") (negb (euid =? 0)%Z) (Err e)]
| Built_invalid_backend sm md euid exe :
    backend_of (backend c) = None ->
    Built c (c, Err (backend c +:+ " is not a valid snapshots backend"))
      (started c sm md euid exe)
| Built_snapshotter_error sm md euid exe c' e b :
    chosen c c' (Err e) b ->
    Built c (c', Err ("creating " +:+ backend c +:+ " snapshotter failed: " +:+ e))
      (started c sm md euid exe ++ [b])
| Built_content_error sm md euid exe c' s b e :
    chosen c c' (Ok s) b ->
    Built c (c', Err e)
      (started c sm md euid exe
       ++ [b; ClocalNewStore (filepath_Join (root c) "content") (Err e)])
| Built_database_error sm md euid exe c' s b store e :
    chosen c c' (Ok s) b ->
    Built c (c', Err e)
      (started c sm md euid exe
       ++ [b; ClocalNewStore (filepath_Join (root c) "content") (Ok store);
           CboltOpen (filepath_Join (root c) "containerdmeta.db") 420 (Err e)])
| Built_init_error sm md euid exe c' s b store db e :
    chosen c c' (Ok s) b ->
    Built c (c', Err e)
      (started c sm md euid exe
       ++ [b; ClocalNewStore (filepath_Join (root c) "content") (Ok store);
           CboltOpen (filepath_Join (root c) "containerdmeta.db") 420 (Ok db);
           CInit {| mdb_db := db; mdb_cs := store; mdb_ss := {[ backend c := s ]} |}
             (Some e)])
| Built_id_error sm md euid exe c' s b store db e :
    chosen c c' (Ok s) b ->
    Built c (c', Err e)
      (started c sm md euid exe
       ++ [b; ClocalNewStore (filepath_Join (root c) "content") (Ok store);
           CboltOpen (filepath_Join (root c) "containerdmeta.db") 420 (Ok db);
           CInit {| mdb_db := db; mdb_cs := store; mdb_ss := {[ backend c := s ]} |} None;
           CbaseID (root c) (Err e)])
| Built_options sm md euid exe c' s b store db id :
    chosen c c' (Ok s) b ->
    Built c (c', Ok (options c sm md exe s store db id))
      (started c sm md euid exe
       ++ [b; ClocalNewStore (filepath_Join (root c) "content") (Ok store);
           CboltOpen (filepath_Join (root c) "containerdmeta.db") 420 (Ok db);
           CInit {| mdb_db := db; mdb_cs := store; mdb_ss := {[ backend c := s ]} |} None;
           CbaseID (root c) (Ok id)]).

End Built.

End client.

(** ** Snapshot follows one of the exit paths *)

Section Soundness.
Context {W : Type} `{Collaborators W}.

Lemma range_sis_acquired sis w :
  acquired sis (range_sis sis w).1.1 (range_sis sis w).2.
Proof.
  revert w. induction sis as [|si sis IH]; intros w; simpl; [constructor|].
  unfold bind, call. destruct (cm_GetMutable (si_ID si) w) as [[e|m] w1]; simpl.
  - specialize (IH w1). destruct (range_sis sis w1) as [[found w2] tr]. simpl in *.
    by constructor.
  - constructor.
Qed.

Lemma storeSharedKey_stored ls m w :
  stored ls m (storeSharedKey m (sharedKeyOf ls) w).1.1 (storeSharedKey m (sharedKeyOf ls) w).2.
Proof.
  unfold storeSharedKey, propagate, bind, call, ret.
  destruct (md_Get (ref_ID m) w) as [si w1].
  destruct (si_values si !! keySharedKey) as [v|] eqn:Hv.
  - destruct (Value_Unmarshal v) as [e|str] eqn:Hu.
    + simpl. eapply stored_unmarshal_error; eauto.
    + destruct (String.eqb str (sharedKeyOf ls)) eqn:Heq.
      * apply String.eqb_eq in Heq. subst. simpl. eapply stored_skipped; eauto.
      * destruct (metadata_NewValue (sharedKeyOf ls)) as [e|v'] eqn:Hn.
        -- simpl. eapply stored_newvalue_error; eauto.
        -- destruct (si_Update_SetValue _ _ _ _) as [r w2]. simpl.
           by apply stored_written.
  - destruct (metadata_NewValue (sharedKeyOf ls)) as [e|v'] eqn:Hn.
    + simpl. eapply stored_newvalue_error; eauto.
    + destruct (si_Update_SetValue _ _ _ _) as [r w2]. simpl.
      by apply stored_written.
Qed.

Lemma Snapshot_copy_copied ls m l dest w :
  copied ls m l dest (Snapshot_copy ls (sharedKeyOf ls) m l dest w).1.1
                     (Snapshot_copy ls (sharedKeyOf ls) m l dest w).2.
Proof.
  unfold Snapshot_copy, attempt, require, propagate, bind, call, ret.
  destruct (contenthash_GetCacheContext m w) as [[e|cc] w1]; simpl; [constructor|].
  destruct (fsutils_CopyDir _ _ _ _ w1) as [[e|] w2]; simpl; [constructor|].
  destruct (lm_Unmount l w2) as [[e|] w3]; simpl; [constructor|].
  destruct (contenthash_SetCacheContext m cc w3) as [[e|] w4]; simpl; [constructor|].
  pose proof (storeSharedKey_stored ls m w4) as Hs.
  destruct (storeSharedKey m (sharedKeyOf ls) w4) as [[[e|] w5] tr]; simpl in *.
  - rewrite app_nil_r. by apply (copied_store_error ls m l dest cc e tr).
  - destruct (ref_Commit m w5) as [[e|snap] w6]; simpl.
    + by apply (copied_commit_error ls m l dest cc tr e).
    + by apply (copied_committed ls m l dest cc tr snap).
Qed.

Lemma Snapshot_mount_mounted ls m w :
  mounted ls m (Snapshot_mount ls (sharedKeyOf ls) m w).1.1
               (Snapshot_mount ls (sharedKeyOf ls) m w).2.
Proof.
  unfold Snapshot_mount, attempt, bind, call, ret.
  destruct (ref_Mount m w) as [[e|l] w1]; simpl; [constructor|].
  destruct (lm_Mount l w1) as [[e|dest] w2]; simpl; [constructor|].
  pose proof (Snapshot_copy_copied ls m l dest w2) as Hc.
  destruct (Snapshot_copy ls (sharedKeyOf ls) m l dest w2) as [[x w3] tr]; simpl in *.
  destruct (deferred_unmount x w3) as [[[] w4] u] eqn:Hu; simpl.
  rewrite app_nil_r. apply mounted_copied; [done|].
  unfold deferred_unmount, unmount_guard, bind, call, ret in *.
  destruct (out x) as [e|snap]; [|by simplify_eq].
  destruct (lm x) as [l'|]; [|by simplify_eq].
  destruct (lm_Unmount l' w3) as [r w5]. simplify_eq. by eexists.
Qed.

Lemma Snapshot_runs ls ctx w :
  Run ls ctx (Snapshot ls ctx w).1.1 (Snapshot ls ctx w).2.
Proof.
  unfold Snapshot, session_FromContext.
  destruct (String.eqb (ctx_session ctx) "") eqn:Hs.
  { apply String.eqb_eq in Hs. by constructor. }
  apply String.eqb_neq in Hs.
  unfold attempt, bind, call, ret.
  destruct (md_Search (sharedKeyOf ls) w) as [[e|sis] w1]; simpl; [by constructor|].
  pose proof (range_sis_acquired sis w1) as Ha.
  destruct (range_sis sis w1) as [[found w2] tr]; simpl in *.
  assert (Hrel : forall x w', (deferred_release x w').2 = release_guard x).
  { intros x w'. unfold deferred_release, release_guard, call, ret.
    destruct (out x); [|done]. by destruct (mutable x). }
  destruct found as [m|].
  - simpl. pose proof (Snapshot_mount_mounted ls m w2) as Hm.
    destruct (Snapshot_mount ls (sharedKeyOf ls) m w2) as [[x w3] tr']; simpl in *.
    specialize (Hrel x w3).
    destruct (deferred_release x w3) as [[[] w4] u]; simpl in *. subst u.
    rewrite ?app_nil_r. by apply (Run_reused ls ctx sis m tr x tr').
  - destruct (cm_New (description ls) w2) as [[e|m] w3]; simpl.
    + rewrite ?app_nil_r. by apply Run_new_error.
    + pose proof (Snapshot_mount_mounted ls m w3) as Hm.
      destruct (Snapshot_mount ls (sharedKeyOf ls) m w3) as [[x w4] tr']; simpl in *.
      specialize (Hrel x w4).
      destruct (deferred_release x w4) as [[[] w5] u]; simpl in *. subst u.
      rewrite ?app_nil_r. by apply (Run_created ls ctx sis m tr x tr').
Qed.
End Soundness.

(** ** What the loop of lines 102-108 adds to a list of calls *)

Section Paths.
Context {W : Type} `{Collaborators W}.

Lemma flat_map_nil_Forall {A B} (f : A -> list B) (l : list A) :
  Forall (fun a => f a = []) l -> flat_map f l = [].
Proof. induction 1 as [|a l Ha _ IH]; simpl; [done|]. by rewrite Ha, IH. Qed.

Lemma acquired_only_GetMutable sis found tr :
  acquired sis found tr -> Forall (fun e => is_GetMutable e = true) tr.
Proof. induction 1; repeat constructor; done. Qed.

Lemma acquired_silent {B} (f : Event -> list B) sis found tr :
  (forall id r, f (EGetMutable id r) = []) ->
  acquired sis found tr -> flat_map f tr = [].
Proof.
  intros Hf Ha. apply flat_map_nil_Forall.
  eapply Forall_impl; [by eapply acquired_only_GetMutable|].
  intros [] ?; simplify_eq/=; auto.
Qed.

Lemma acquired_acquisitions sis found tr :
  acquired sis found tr -> acquisitions tr = option_list found.
Proof. induction 1; simpl; auto. Qed.

End Paths.

Ltac invert_paths :=
  repeat match goal with
    | H : Run _ _ _ _ |- _ => inversion H; clear H; subst
    | H : mounted _ _ _ _ |- _ => inversion H; clear H; subst
    | H : copied _ _ _ _ _ _ |- _ => inversion H; clear H; subst
    | H : stored _ _ _ _ |- _ => inversion H; clear H; subst
    | H : unmount_guard _ _ |- _ =>
        cbn in H;
        lazymatch type of H with
        | ex _ => let r := fresh "r" in destruct H as [r H]; subst
        | _ => subst
        end
    | H : _ <$> ?r = _ |- _ => destruct r; simplify_eq/=
    | H : _ = _ <$> ?r |- _ => destruct r; simplify_eq/=
    end.

(** Reads a list of calls that an inversion has made explicit: a reading
    [flat_map f] is first unfolded by the proof that uses it; the calls of the
    loop of lines 102-108 give the ref acquired and nothing else. *)
Ltac read_calls :=
  unfold copy_of in *;
  cbn [release_guard failed out mutable lm flat_map app];
  rewrite ?flat_map_app; cbn [flat_map app];
  repeat match goal with
    | Ha : acquired _ _ ?tr |- context [flat_map acquired_by ?tr] =>
        rewrite (acquired_acquisitions _ _ _ Ha : flat_map acquired_by tr = _)
    | Ha : acquired _ _ ?tr |- context [flat_map ?f ?tr] =>
        rewrite (acquired_silent f _ _ _ ltac:(done) Ha)
    end;
  simpl;
  repeat match goal with
    | |- context [match ?r with _ => _ end] => is_var r; destruct r; simpl
    end.

(** ** Snapshot, whatever the collaborators do *)

Section Claims.

Context {W : Type} `{Collaborators W}.

Lemma acquired_Forall (P : Event -> Prop) sis found tr :
  (forall id r, P (EGetMutable id r)) ->
  acquired sis found tr -> Forall P tr.
Proof.
  intros HP Ha. eapply Forall_impl; [by eapply acquired_only_GetMutable|].
  intros [] ?; simplify_eq/=; auto.
Qed.


(** C6, amended.  (a) [SetValue] is called only after the copy, the
    unmount and the saving of the content hashes have succeeded, in this
    order.  (b) [Unmount] is called on every local mount made, once or,
    when the first call fails, twice.  (c) If Snapshot returns an error,
    the ref it held is released, and an index value was written only if
    the error is the commit's.  (d) If the copier returns an error,
    Snapshot returns it, the ref is released, [Unmount] is called on the
    mount and [SetValue] is not called. *)
Theorem Snapshot_failure_guards ls ctx w :
  let run := Snapshot ls ctx w in
  let tr := calls run in
  (index_calls tr = [] \/ steps tr = [Copied; Unmounted; Saved; Indexed])
  /\ match local_mounts tr with
     | [] => unmounts tr = []
     | [l] => unmounts tr = [l] \/ unmounts tr = [l; l]
     | _ => False
     end
  /\ (is_Err (result run) = true ->
      releases tr = acquisitions tr
      /\ (index_writes tr = [] \/ exists m, commit_failures tr = [m]))
  /\ (forall e, copy_failures tr = [e] ->
      result run = Err (Propagated e)
      /\ index_calls tr = []
      /\ exists m l, acquisitions tr = [m] /\ releases tr = [m]
                     /\ local_mounts tr = [l] /\ unmounts tr = [l]).
Proof.
  intros run tr. pose proof (Snapshot_runs ls ctx w) as HR.
  fold run in HR. subst tr. unfold result, calls. destruct run as [[r w'] tr].
  simpl in *.
  unfold index_calls, steps, local_mounts, unmounts, releases, acquisitions,
    index_writes, commit_failures, copy_failures.
  invert_paths; read_calls;
    (repeat split; auto; try (intros; simplify_eq/=; eauto 10; fail)).
Qed.

(** C4, amended.  The shared key Snapshot searches for and stores is
    "local.sharedKey", the name, the hint and the host path configured for
    the name, joined by colons: every [Search] looks for it, and every
    [SetValue] stores under it a value whose index it is. *)
Theorem Snapshot_sharedKey ls ctx w :
  let K := "local.sharedKey:" +:+ Name (src ls) +:+ ":" +:+ SharedKeyHint (src ls)
             +:+ ":" +:+ default EmptyString (ld ls !! Name (src ls)) in
  sharedKeyOf ls = K
  /\ Forall (fun e => match e with
                      | ESearch index _ => index = K
                      | ESetValue _ key v _ => key = K /\ Index v = K
                      | _ => True
                      end) (calls (Snapshot ls ctx w)).
Proof.
  intros K. split; [reflexivity|].
  pose proof (Snapshot_runs ls ctx w) as HR.
  unfold calls. destruct (Snapshot ls ctx w) as [[r w'] tr]. simpl in *.
  change (sharedKeyOf ls) with K in *.
  invert_paths; unfold copy_of; cbn [release_guard failed out mutable lm app];
    repeat match goal with
      | |- Forall _ [] => constructor
      | |- Forall _ (_ :: _) => constructor; [by auto|]
      | |- Forall _ (_ ++ _) => apply Forall_app; split
      | Ha : acquired _ _ ?t |- Forall _ ?t => by eapply acquired_Forall
      end.
Qed.




(** A Snapshot that succeeds leaves the index write out only when the
    record of the ref holds the shared key under the constant key
    "local.sharedKey". *)
Lemma Snapshot_skips_only_on_keySharedKey ls ctx w :
  let run := Snapshot ls ctx w in
  is_Err (result run) = false ->
  index_writes (calls run) = [] ->
  exists id si v,
    In (EGet id si) (calls run)
    /\ si_values si !! keySharedKey = Some v
    /\ Value_Unmarshal v = Ok (sharedKeyOf ls).
Proof.
  intros run. pose proof (Snapshot_runs ls ctx w) as HR.
  fold run in HR. unfold result, calls. destruct run as [[r w'] tr]. simpl in *.
  unfold index_writes.
  invert_paths; try done; intros _ Hw.
  all: try (exfalso; revert Hw; read_calls; done).
  all: eexists _, _, _; split; [|split; eassumption].
  all: unfold copy_of; cbn [release_guard out mutable lm app].
  all: right; rewrite in_app_iff; right; simpl.
  all: repeat first [left; reflexivity | right].
Qed.

(** C3, amended.  CacheKey fails with [NoSession] exactly when neither the
    identifier nor the context has a session ID.  Snapshot fails with
    [NoSession] exactly when the context has none, whatever the identifier
    carries; it then calls no collaborator. *)
Theorem NoSession_conditions ls ctx w :
  (CacheKey ls ctx = Err NoSession <->
     SessionID (src ls) = EmptyString /\ ctx_session ctx = EmptyString)
  /\ (result (Snapshot ls ctx w) = Err NoSession <-> ctx_session ctx = EmptyString)
  /\ (ctx_session ctx = EmptyString -> Snapshot ls ctx w = (Err NoSession, w, [])).
Proof.
  split; [|split].
  - unfold CacheKey, session_FromContext, json_Marshal.
    destruct (String.eqb_spec (SessionID (src ls)) EmptyString) as [->|Hid].
    + destruct (String.eqb_spec (ctx_session ctx) EmptyString) as [->|Hc];
        split; try done. by intros [_ ?].
    + split; [done|]. by intros [? _].
  - pose proof (Snapshot_runs ls ctx w) as HR. unfold result.
    destruct (Snapshot ls ctx w) as [[r w'] tr]. simpl in *.
    split.
    + intros ->. inversion HR; subst; try done.
      all: invert_paths; simplify_eq/=.
    + intros Hs. inversion HR; subst; done.
  - intros Hs. unfold Snapshot, session_FromContext. by rewrite Hs.
Qed.

End Claims.

(** ** crypto/sha256 and encoding/json on known values *)

Example sha256_hex_abc :
  sha256_hex "abc" = "ba7816bf8f01cfea414140de5dae2223b00361a396177a9cb410ff61f20015ad".
Proof. vm_compute. reflexivity. Qed.

Example sha256_hex_empty :
  sha256_hex EmptyString
  = "e3b0c44298fc1c149afbf4c8996fb92427ae41e4649b934ca495991b7852b855".
Proof. vm_compute. reflexivity. Qed.

(** A message of 119 bytes fills two blocks to the last byte. *)
Example sha256_hex_two_blocks :
  sha256_hex (string_of_list_ascii (replicate 119 "a"%char))
  = "31eba51c313a5c08226adf18d4a359cfdfd8d2e816b13f4af952f7ea6584dcfb".
Proof. vm_compute. reflexivity. Qed.

(** The text hashed for the scenario's identifier. *)
Example serialization_work :
  serialization work in_session
  = "{" +:+ json_key "SessionID" +:+ quot +:+ "session-1" +:+ quot
      +:+ "," +:+ json_key "IncludePatterns" +:+ "null"
      +:+ "," +:+ json_key "ExcludePatterns" +:+ "null" +:+ "}".
Proof. vm_compute. reflexivity. Qed.

(** The HTML characters and the control characters are escaped, UTF-8 is
    passed on (here the two bytes of a Greek alpha), a byte that is not UTF-8
    is replaced. *)
Example json_escape_examples :
  json_escape Boundary "a<b" = "a" +:+ String backslash "u003cb"
  /\ json_escape Boundary (String (ascii_of_nat 10) EmptyString) = String backslash "n"
  /\ json_escape Boundary (String (ascii_of_nat 206) (String (ascii_of_nat 177) EmptyString))
     = String (ascii_of_nat 206) (String (ascii_of_nat 177) EmptyString)
  /\ json_escape Boundary (String (ascii_of_nat 255) EmptyString) = String backslash "ufffd"
  /\ utf8_valid Boundary (String (ascii_of_nat 206) (String (ascii_of_nat 177) "b")) = true
  /\ utf8_valid Boundary (String (ascii_of_nat 255) EmptyString) = false.
Proof. repeat split; vm_compute; reflexivity. Qed.

(** ** encoding/json: what was written can be read back *)

#[local] Arguments String.append !_ _ / : simpl nomatch.
#[local] Arguments json_string : simpl never.

Lemma string_app_assoc (a b c : string) : (a +:+ b) +:+ c = a +:+ b +:+ c.
Proof. induction a as [|x a IH]; simpl; [done|]. by f_equal. Qed.

Lemma json_unescape_ascii (c : ascii) (rest : string) :
  (N_of_ascii c <? 128)%N = true ->
  json_unescape (json_escape_ascii (N_of_ascii c) +:+ rest)
  = prepend (String c EmptyString) (json_unescape rest).
Proof.
  destruct c as [b0 b1 b2 b3 b4 b5 b6 b7].
  destruct b7; [by destruct b0, b1, b2, b3, b4, b5, b6|]. intros _.
  destruct b0, b1, b2, b3, b4, b5, b6; reflexivity.
Qed.

Lemma json_unescape_raw (c : ascii) (rest : string) :
  (128 <=? N_of_ascii c)%N = true ->
  json_unescape (String c rest) = prepend (String c EmptyString) (json_unescape rest).
Proof.
  intros Hc. apply N.leb_le in Hc. simpl.
  rewrite (proj2 (N.eqb_neq _ 34)), (proj2 (N.eqb_neq _ 92)), (proj2 (N.ltb_ge _ 32)); lia || done.
Qed.

Lemma json_escape_boundary st s :
  match st with Pass (S _) | Skip (S _) => False | _ => True end ->
  json_escape st s = json_escape Boundary s.
Proof. destruct s; [done|]. by destruct st as [|[]|[]]. Qed.

Lemma line_separator_Some b rest last :
  line_separator (N_of_ascii b) rest = Some last ->
  exists rest', b = ascii_of_N 226 /\
    ((rest = String (ascii_of_N 128) (String (ascii_of_N 168) rest') /\ last = 168%N) \/
     (rest = String (ascii_of_N 128) (String (ascii_of_N 169) rest') /\ last = 169%N)).
Proof.
  destruct rest as [|c1 [|c2 rest']]; simpl; try done.
  destruct (N.eqb_spec (N_of_ascii b) 226) as [Hb|]; [|done].
  destruct (N.eqb_spec (N_of_ascii c1) 128) as [H1|]; [|done].
  assert (b = ascii_of_N 226) as -> by (by rewrite <- Hb, ascii_N_embedding).
  assert (c1 = ascii_of_N 128) as -> by (by rewrite <- H1, ascii_N_embedding).
  destruct (N.eqb_spec (N_of_ascii c2) 168) as [H2|].
  - assert (c2 = ascii_of_N 168) as -> by (by rewrite <- H2, ascii_N_embedding).
    intros [= <-]. exists rest'. by split; [|left].
  - destruct (N.eqb_spec (N_of_ascii c2) 169) as [H3|]; [|done].
    assert (c2 = ascii_of_N 169) as -> by (by rewrite <- H3, ascii_N_embedding).
    intros [= <-]. exists rest'. by split; [|right].
Qed.

Lemma json_unescape_escape s : forall st tl,
  utf8_valid st s = true ->
  json_unescape (json_escape st s +:+ quot +:+ tl) = Some (unread st s, tl).
Proof.
  induction s as [|c rest IH]; intros st tl Hv.
  - destruct st as [|[]|[]]; done.
  - assert (Hb : utf8_valid Boundary (String c rest) = true ->
            json_unescape (json_escape Boundary (String c rest) +:+ quot +:+ tl)
            = Some (String c rest, tl)).
    { clear Hv. cbn [utf8_valid json_escape].
      destruct (N.ltb_spec (N_of_ascii c) 128) as [Hc|Hc].
      - intros Hv. rewrite string_app_assoc, json_unescape_ascii by by apply N.ltb_lt.
        by rewrite (IH Boundary tl Hv).
      - destruct (utf8_size (N_of_ascii c) rest) as [|k] eqn:Hsz; [done|].
        destruct (line_separator (N_of_ascii c) rest) as [last|] eqn:Hls.
        + apply line_separator_Some in Hls as (rest' & -> & [[-> ->]|[-> ->]]).
          all: vm_compute in Hsz; injection Hsz as <-; intros Hv.
          all: specialize (IH (Skip 2) tl Hv).
          all: cbn [json_escape Nat.sub unread string_drop] in IH |- *.
          all: rewrite !string_app_assoc; simpl in IH |- *; rewrite IH; reflexivity.
        + intros Hv. cbn [String.append]. rewrite json_unescape_raw by (apply N.leb_le; lia).
          rewrite Nat.sub_succ, Nat.sub_0_r.
          by rewrite (IH (Pass k) tl Hv). }
    destruct st as [|[|k]|[|k]]; cbn [unread string_drop]; try (by apply Hb).
    + cbn [utf8_valid json_escape] in Hv |- *. apply andb_prop in Hv as [Hc Hv].
      cbn [String.append]. rewrite json_unescape_raw by done.
      by rewrite (IH (Pass k) tl Hv).
    + cbn [utf8_valid json_escape] in Hv |- *. by apply IH.
Qed.

Lemma json_string_prefix_inj s1 s2 t1 t2 :
  utf8_valid Boundary s1 = true -> utf8_valid Boundary s2 = true ->
  json_string s1 +:+ t1 = json_string s2 +:+ t2 -> s1 = s2 /\ t1 = t2.
Proof.
  intros H1 H2 Heq. unfold json_string in Heq. rewrite !string_app_assoc in Heq.
  apply String.app_inj in Heq. apply (f_equal json_unescape) in Heq.
  rewrite !json_unescape_escape in Heq by done. by simplify_eq.
Qed.

#[local] Arguments json_string : simpl never.

Lemma json_string_head s t : exists t', json_string s +:+ t = String (ascii_of_nat 34) t'.
Proof. unfold json_string. rewrite string_app_assoc. by eexists. Qed.

Lemma json_more_prefix_inj l1 : forall l2 t1 t2,
  forallb (utf8_valid Boundary) l1 = true -> forallb (utf8_valid Boundary) l2 = true ->
  json_more l1 +:+ "]" +:+ t1 = json_more l2 +:+ "]" +:+ t2 -> l1 = l2 /\ t1 = t2.
Proof.
  induction l1 as [|x l1 IH]; intros [|y l2] t1 t2 H1 H2 Heq;
    cbn [json_more forallb] in *.
  - by simplify_eq.
  - done.
  - done.
  - apply andb_prop in H1 as [Hx H1]. apply andb_prop in H2 as [Hy H2].
    rewrite !string_app_assoc in Heq. apply String.app_inj in Heq.
    apply json_string_prefix_inj in Heq as [-> Heq]; [|done..].
    by apply IH in Heq as [-> ->].
Qed.

Lemma json_slice_prefix_inj l1 l2 t1 t2 :
  slice_valid l1 = true -> slice_valid l2 = true ->
  json_slice l1 +:+ t1 = json_slice l2 +:+ t2 -> l1 = l2 /\ t1 = t2.
Proof.
  destruct l1 as [l1|], l2 as [l2|]; cbn [json_slice slice_valid];
    intros H1 H2 Heq; try done.
  - rewrite !string_app_assoc in Heq. apply String.app_inj in Heq.
    destruct l1 as [|x l1], l2 as [|y l2]; cbn [json_elements forallb] in *.
    + by simplify_eq.
    + rewrite string_app_assoc in Heq.
      destruct (json_string_head y (json_more l2 +:+ "]" +:+ t2)) as [t' Ht].
      rewrite Ht in Heq. done.
    + rewrite string_app_assoc in Heq.
      destruct (json_string_head x (json_more l1 +:+ "]" +:+ t1)) as [t' Ht].
      rewrite Ht in Heq. done.
    + apply andb_prop in H1 as [Hx H1]. apply andb_prop in H2 as [Hy H2].
      rewrite !string_app_assoc in Heq.
      apply json_string_prefix_inj in Heq as [-> Heq]; [|done..].
      by apply json_more_prefix_inj in Heq as [-> ->].
  - by simplify_eq.
Qed.

Lemma json_object_inj s1 i1 e1 s2 i2 e2 :
  utf8_valid Boundary s1 = true -> slice_valid i1 = true -> slice_valid e1 = true ->
  utf8_valid Boundary s2 = true -> slice_valid i2 = true -> slice_valid e2 = true ->
  json_object s1 i1 e1 = json_object s2 i2 e2 -> s1 = s2 /\ i1 = i2 /\ e1 = e2.
Proof.
  intros Hs1 Hi1 He1 Hs2 Hi2 He2 Heq. unfold json_object in Heq.
  apply String.app_inj in Heq. apply String.app_inj in Heq.
  apply json_string_prefix_inj in Heq as [-> Heq]; [|done..].
  apply String.app_inj in Heq. apply String.app_inj in Heq.
  apply json_slice_prefix_inj in Heq as [-> Heq]; [|done..].
  apply String.app_inj in Heq. apply String.app_inj in Heq.
  by apply json_slice_prefix_inj in Heq as [-> _].
Qed.

(** ** CacheKey *)

Lemma string_app_length (a b : string) :
  String.length (a +:+ b) = (String.length a + String.length b)%nat.
Proof. induction a as [|x a IH]; simpl; [done|]. by rewrite IH. Qed.

Lemma string_app_inv_tail (a b t : string) : a +:+ t = b +:+ t -> a = b.
Proof.
  revert b. induction a as [|x a IH]; intros [|y b] Heq; simpl in Heq.
  - done.
  - apply (f_equal String.length) in Heq. simpl in Heq.
    rewrite string_app_length in Heq. lia.
  - apply (f_equal String.length) in Heq. simpl in Heq.
    rewrite string_app_length in Heq. lia.
  - injection Heq as -> Heq. by rewrite (IH b Heq).
Qed.

Lemma CacheKey_Ok ls ctx k :
  CacheKey ls ctx = Ok k ->
  k = "session:" +:+ Name (src ls) +:+ ":" +:+ "sha256:" +:+ sha256_hex (serialization ls ctx).
Proof.
  unfold CacheKey, serialization, resolved_session, json_Marshal, digest_FromBytes,
    session_FromContext.
  destruct (String.eqb (SessionID (src ls)) ""); [|by intros [= <-]].
  destruct (String.eqb (ctx_session ctx) ""); [done|by intros [= <-]].
Qed.

(** C2, amended.  CacheKey returns the word "session", the name and the
    digest, joined by colons, the digest being "sha256:" and the SHA-256, in
    hexadecimal, of the JSON text of the session ID and the two pattern
    lists.  The session ID is the identifier's or, when that is empty, the
    context's; it is part of what is hashed and of nothing else.  With no
    session ID CacheKey fails. *)
Theorem CacheKey_format ls ctx :
  CacheKey ls ctx =
    let sessionID := resolved_session (src ls) ctx in
    if String.eqb sessionID EmptyString then Err NoSession
    else Ok ("session:" +:+ Name (src ls) +:+ ":" +:+ "sha256:"
             +:+ sha256_hex (json_object sessionID (IncludePatterns (src ls))
                                          (ExcludePatterns (src ls)))).
Proof.
  unfold CacheKey, resolved_session, json_Marshal, digest_FromBytes, session_FromContext.
  destruct (String.eqb (SessionID (src ls)) "") eqn:Hid.
  - by destruct (String.eqb (ctx_session ctx) "").
  - cbv zeta. by rewrite Hid.
Qed.

(** C2 as stated fails: with the session ID "s1" the key starts with
    "session:work:", not with "s1". *)
Lemma CacheKey_prefix_is_not_the_session_ID :
  resolved_session (src work_s1) no_session = "s1"
  /\ CacheKey work_s1 no_session
     = Ok "session:work:sha256:b1a2fe66688d3e7c452b1fc18c9fff0c4dbf996ba06aa7325155b90a13089dec"
  /\ String.prefix "s1"
       "session:work:sha256:b1a2fe66688d3e7c452b1fc18c9fff0c4dbf996ba06aa7325155b90a13089dec"
     = false.
Proof. repeat split; vm_compute; reflexivity. Qed.

(** C9.  Two identifiers with the same name and patterns, used where they
    resolve to the same session ID, have the same cache key, whatever their
    hints and the host paths configured.  CacheKey takes no state of the
    world: the contents of the directory cannot enter it. *)
Theorem CacheKey_ignores_sharedKeyHint ls1 ctx1 ls2 ctx2 :
  resolved_session (src ls1) ctx1 = resolved_session (src ls2) ctx2 ->
  Name (src ls1) = Name (src ls2) ->
  IncludePatterns (src ls1) = IncludePatterns (src ls2) ->
  ExcludePatterns (src ls1) = ExcludePatterns (src ls2) ->
  CacheKey ls1 ctx1 = CacheKey ls2 ctx2.
Proof.
  intros Hs Hn Hi He. unfold CacheKey. rewrite Hn, Hi, He.
  unfold resolved_session in Hs.
  destruct (String.eqb_spec (SessionID (src ls1)) "") as [E1|N1],
           (String.eqb_spec (SessionID (src ls2)) "") as [E2|N2].
  - by rewrite Hs.
  - rewrite Hs. by rewrite (proj2 (String.eqb_neq _ _) N2).
  - rewrite <- Hs. by rewrite (proj2 (String.eqb_neq _ _) N1).
  - by rewrite Hs.
Qed.

(** C9 at [work] in its session and at [work_elsewhere], which names the
    same session itself: another hint, another host path, the same key. *)
Lemma CacheKey_ignores_sharedKeyHint_witness :
  SharedKeyHint (src work) = "v1" /\ SharedKeyHint (src work_elsewhere) = "v2"
  /\ ld_lookup work "work" = "/tmp/src" /\ ld_lookup work_elsewhere "work" = "/srv/other"
  /\ CacheKey work in_session = CacheKey work_elsewhere no_session.
Proof.
  do 4 (split; [reflexivity|]).
  apply (CacheKey_ignores_sharedKeyHint work in_session work_elsewhere no_session);
    reflexivity.
Defined.

(** C8, amended.  The key is a function of the name and of the JSON text of
    the session ID and the pattern lists.  Another name gives another key.
    Under one name, two keys are equal exactly when the SHA-256 of the two
    texts are; and the texts of two tuples whose strings are UTF-8 are equal
    only if the session IDs and the pattern lists are, order included. *)
Theorem CacheKey_sensitivity ls1 ctx1 ls2 ctx2 k1 k2 :
  CacheKey ls1 ctx1 = Ok k1 ->
  CacheKey ls2 ctx2 = Ok k2 ->
  (Name (src ls1) = Name (src ls2) ->
   serialization ls1 ctx1 = serialization ls2 ctx2 -> k1 = k2)
  /\ (Name (src ls1) <> Name (src ls2) ->
      serialization ls1 ctx1 = serialization ls2 ctx2 -> k1 <> k2)
  /\ (Name (src ls1) = Name (src ls2) ->
      (k1 = k2 <->
       sha256_hex (serialization ls1 ctx1) = sha256_hex (serialization ls2 ctx2)))
  /\ (fields_valid ls1 ctx1 = true -> fields_valid ls2 ctx2 = true ->
      serialization ls1 ctx1 = serialization ls2 ctx2 ->
      resolved_session (src ls1) ctx1 = resolved_session (src ls2) ctx2
      /\ IncludePatterns (src ls1) = IncludePatterns (src ls2)
      /\ ExcludePatterns (src ls1) = ExcludePatterns (src ls2)).
Proof.
  intros H1 H2. apply CacheKey_Ok in H1, H2. subst k1 k2.
  split; [|split; [|split]].
  - intros Hn Hs. by rewrite Hn, Hs.
  - intros Hn Hs Heq. rewrite Hs in Heq. apply String.app_inj in Heq.
    by apply string_app_inv_tail in Heq.
  - intros Hn. rewrite Hn. split.
    + intros Heq. by do 4 apply String.app_inj in Heq.
    + by intros ->.
  - unfold fields_valid, serialization. intros Hv1 Hv2 Heq.
    apply andb_prop in Hv1 as [Hv1 He1]. apply andb_prop in Hv1 as [Hs1 Hi1].
    apply andb_prop in Hv2 as [Hv2 He2]. apply andb_prop in Hv2 as [Hs2 Hi2].
    by apply json_object_inj.
Qed.

(** C8, amended, at two identifiers that differ in the order of their
    include patterns. *)
Lemma CacheKey_sensitivity_witness :
  let ab := with_includes ["a"; "b"] work in
  let ba := with_includes ["b"; "a"] work in
  let k1 := "session:work:sha256:3402957ebb63688d94b17b4db491c96f16cf052c8858a9d95937554b4ad5681e" in
  let k2 := "session:work:sha256:64061df7c0bebc44b7505c6d48170b692f6cd1bbf47730d609f107a4aca414e5" in
  (CacheKey ab in_session = Ok k1 /\ CacheKey ba in_session = Ok k2)
  /\ (Name (src ab) = Name (src ba) ->
      serialization ab in_session = serialization ba in_session -> k1 = k2)
  /\ (Name (src ab) <> Name (src ba) ->
      serialization ab in_session = serialization ba in_session -> k1 <> k2)
  /\ (Name (src ab) = Name (src ba) ->
      (k1 = k2 <->
       sha256_hex (serialization ab in_session) = sha256_hex (serialization ba in_session)))
  /\ (fields_valid ab in_session = true -> fields_valid ba in_session = true ->
      serialization ab in_session = serialization ba in_session ->
      resolved_session (src ab) in_session = resolved_session (src ba) in_session
      /\ IncludePatterns (src ab) = IncludePatterns (src ba)
      /\ ExcludePatterns (src ab) = ExcludePatterns (src ba)).
Proof.
  intros ab ba k1 k2.
  assert (H1 : CacheKey ab in_session = Ok k1) by (vm_compute; reflexivity).
  assert (H2 : CacheKey ba in_session = Ok k2) by (vm_compute; reflexivity).
  split; [by split|].
  exact (CacheKey_sensitivity ab in_session ba in_session k1 k2 H1 H2).
Defined.

(** C8 as stated fails: two exclude patterns that differ in one byte, each
    a file name in Latin-1, are both written with the escape of U+FFFD in
    its place, so that the two keys are the same. *)
Lemma CacheKey_collides_on_invalid_UTF8 :
  String.eqb cafe_acute cafe_grave = false
  /\ ExcludePatterns (src work_acute) = Some [cafe_acute]
  /\ ExcludePatterns (src work_grave) = Some [cafe_grave]
  /\ Name (src work_acute) = Name (src work_grave)
  /\ SessionID (src work_acute) = SessionID (src work_grave)
  /\ IncludePatterns (src work_acute) = IncludePatterns (src work_grave)
  /\ CacheKey work_acute in_session
     = Ok "session:work:sha256:c691f6ea8458d667eec9511a3e78c976a2a146af584745bfa56a4d96c9a71c72"
  /\ CacheKey work_grave in_session
     = Ok "session:work:sha256:c691f6ea8458d667eec9511a3e78c976a2a146af584745bfa56a4d96c9a71c72".
Proof. repeat split; vm_compute; reflexivity. Qed.

(** ** Snapshot in the in-memory world *)

(** C1 fails on the code.  Snapshot is run twice for the scenario's
    identifier, nothing changed in between.  Both calls succeed, the second
    reuses the ref of the first (no second ref is created), and each of them
    writes the index value: the record the second call reads has the value
    under the shared key, where [SetValue] put it, and nothing under
    "local.sharedKey", where line 164 looks for it. *)
Theorem Snapshot_twice_writes_the_index_twice :
  let K := "local.sharedKey:work:v1:/tmp/src" in
  is_Err (result first_run) = false
  /\ is_Err (result second_run) = false
  /\ acquisitions (calls second_run) = [{| ref_ID := "ref-0" |}]
  /\ created (world second_run) = 1%nat
  /\ fst <$> index_writes (calls first_run) = [("ref-0", K)]
  /\ fst <$> index_writes (calls second_run) = [("ref-0", K)]
  /\ Index <$> (item_of (world first_run) "ref-0").(si_values) !! K = Some K
  /\ (item_of (world first_run) "ref-0").(si_values) !! keySharedKey = None.
Proof. repeat split; vm_compute; reflexivity. Qed.

(** The key Snapshot stores under is never the key it reads. *)
Lemma sharedKeyOf_is_not_keySharedKey ls : sharedKeyOf ls <> keySharedKey.
Proof.
  unfold sharedKeyOf. intros Heq.
  apply (f_equal String.length) in Heq. rewrite string_app_length in Heq.
  simpl in Heq. lia.
Qed.

(** C3 as stated fails: the identifier carries the session ID "s1", the
    context has none, and Snapshot fails with [NoSession]. *)
Lemma Snapshot_ignores_the_identifier_session :
  SessionID (src work_s1) = "s1"
  /\ Snapshot work_s1 no_session mem_empty = (Err NoSession, mem_empty, []).
Proof. split; reflexivity. Qed.

(** C4 as stated fails: in the scenario the value is indexed under
    "local.sharedKey:work:v1:/tmp/src". *)
Lemma Snapshot_index_value_has_the_key_prefix :
  index (world first_run) = [("local.sharedKey:work:v1:/tmp/src", "ref-0")]
  /\ (fun x => Index x.2) <$> index_writes (calls first_run)
     = ["local.sharedKey:work:v1:/tmp/src"]
  /\ String.eqb "local.sharedKey:work:v1:/tmp/src" "work:v1:/tmp/src" = false.
Proof. repeat split; vm_compute; reflexivity. Qed.


(** The two uses of C5 in the in-memory world.  After a first Snapshot, the
    second takes the ref of the first and creates none; with a stale match
    before a free one, the stale one is passed over; with only a stale match
    left, a new ref is created, and Snapshot succeeds. *)
Lemma Snapshot_reuse_examples :
  (List.filter is_acquire (calls second_run)
   = [EGetMutable "ref-0" (Ok {| ref_ID := "ref-0" |})]
   /\ created (world second_run) = 1%nat)
  /\ (List.filter is_acquire (calls stale_run)
      = [EGetMutable "ref-3" (Err "cache: ref not found");
         EGetMutable "ref-7" (Ok {| ref_ID := "ref-7" |})]
      /\ is_Err (result stale_run) = false)
  /\ (List.filter is_acquire (calls gone_run)
      = [EGetMutable "ref-3" (Err "cache: ref not found");
         ENew "local source for work" (Ok {| ref_ID := "ref-4" |})]
      /\ is_Err (result gone_run) = false).
Proof. repeat split; vm_compute; reflexivity. Qed.

(** C6 as stated fails: when the commit fails, Snapshot fails and the ref
    is released, but the index value was written before, and the index lists
    the ref under the shared key. *)
Lemma Snapshot_commit_failure_leaves_the_index_entry :
  result commit_fault_run = Err (Propagated "cache: commit failed")
  /\ acquisitions (calls commit_fault_run) = [{| ref_ID := "ref-0" |}]
  /\ releases (calls commit_fault_run) = [{| ref_ID := "ref-0" |}]
  /\ fst <$> index_writes (calls commit_fault_run)
     = [("ref-0", "local.sharedKey:work:v1:/tmp/src")]
  /\ index (world commit_fault_run) = [("local.sharedKey:work:v1:/tmp/src", "ref-0")].
Proof. repeat split; vm_compute; reflexivity. Qed.

(** When the copier fails, the ref is released, the mount unmounted and the
    index left empty. *)
Lemma Snapshot_copy_failure_example :
  result copy_fault_run = Err (Propagated "copy failed")
  /\ releases (calls copy_fault_run) = [{| ref_ID := "ref-0" |}]
  /\ refs (world copy_fault_run) !! "ref-0" = Some Idle
  /\ mounts (world copy_fault_run) = []
  /\ index (world copy_fault_run) = [].
Proof. repeat split; vm_compute; reflexivity. Qed.


(** For the unmapped name "docs" the in-memory run succeeds, having searched
    for "local.sharedKey:docs:v1:" and copied from the empty path. *)
Lemma Snapshot_unmapped_name_example :
  is_Err (result docs_run) = false
  /\ head (calls docs_run) = Some (ESearch "local.sharedKey:docs:v1:" (Ok []))
  /\ In (ECopyDir EmptyString "/mnt/ref-0" docs_id {| cc_ID := "ref-0" |} None)
       (calls docs_run).
Proof. repeat split; vm_compute; auto 10. Qed.

(** ** Snapshot: the calls in full *)

Section SnapshotCalls.
Context {W : Type} `{Collaborators W}.

Lemma acquired_after_first_failure sis found tr rest :
  acquired sis found tr ->
  after_first_failure (tr ++ rest) = after_first_failure rest.
Proof. induction 1; simpl; auto. Qed.

(** X1.  On success the calls of Snapshot are, in this order: [Search] for the
    shared key; [GetMutable] on the matches up to the first that is given
    out, or on all of them and then [New]; [Mount]; the local mount;
    [GetCacheContext]; [CopyDir] from the mapped directory into the mounted
    path, with the identifier as options and the cache context as updater;
    [Unmount]; [SetCacheContext] with the same cache context; [Get] of the
    ref's record; [SetValue] unless skipped; [Commit], whose snapshot is the
    one returned.  No call fails but [GetMutable] on the stale matches. *)
Theorem Snapshot_success_calls ls ctx w snap :
  result (Snapshot ls ctx w) = Ok snap ->
  exists sis found tried m l dest cc si store,
    acquired sis found tried
    /\ (found = None \/ found = Some m)
    /\ (store = [] \/
        exists v, metadata_NewValue (sharedKeyOf ls) = Ok v /\
          store = [ESetValue si (sharedKeyOf ls)
                     {| Value_data := Value_data v; Index := sharedKeyOf ls |} None])
    /\ calls (Snapshot ls ctx w) =
         (ESearch (sharedKeyOf ls) (Ok sis) :: tried
          ++ match found with
             | Some _ => []
             | None => [ENew (description ls) (Ok m)]
             end
          ++ [EMount m (Ok l); ELocalMount l (Ok dest); EGetCacheContext m (Ok cc);
              ECopyDir (ld_lookup ls (Name (src ls))) dest (src ls) cc None;
              EUnmount l None; ESetCacheContext m cc None; EGet (ref_ID m) si]
          ++ store ++ [ECommit m (Ok snap)])%list.
Proof.
  pose proof (Snapshot_runs ls ctx w) as HR.
  unfold result, calls. destruct (Snapshot ls ctx w) as [[r w'] tr]. simpl in *.
  intros ->.
  inversion HR as [| | |sis m tr0 x tr' Hs Ha Hm Hx|sis m tr0 x tr' Hs Ha Hm Hx];
    subst; clear HR;
    (inversion Hm as [| |l dest x' trc u Hc Hu]; subst; clear Hm;
       [cbn in Hx; discriminate ..|]);
    (inversion Hc as [| | | | | |cc trs snap' Hst]; subst; clear Hc;
       try (cbn in Hx; discriminate));
    cbn in Hx; simplify_eq; cbn in Hu; subst u;
    [exists sis, (Some m), tr0, m, l, dest, cc | exists sis, None, tr0, m, l, dest, cc];
    (inversion Hst as [si v Hv Hu| | |si v r Hn Hr]; subst; clear Hst;
       [exists si, []; split; [done|]; split; [auto|]; split; [auto|]
       |destruct r; simplify_eq/=;
        exists si, [ESetValue si (sharedKeyOf ls)
                      {| Value_data := Value_data v; Index := sharedKeyOf ls |} None];
        split; [done|]; split; [auto|]; split; [eauto|]]);
    unfold copy_of; cbn [release_guard out mutable app];
    rewrite ?app_nil_r; simpl; rewrite <- ?app_assoc; reflexivity.
Qed.

(** X2.  Snapshot returns the error of the first call that fails, unchanged,
    the failures of [GetMutable] apart; after that call it makes no other
    than those of its deferred closures, [Unmount] and [Release].  When no
    call failed, Snapshot returns a snapshot, or fails for want of a
    session, or returns the error of [Unmarshal] or [NewValue], which do
    not act on the world. *)
Theorem Snapshot_returns_the_first_failure ls ctx w :
  let run := Snapshot ls ctx w in
  match failures (calls run) with
  | e :: _ => result run = Err (Propagated e)
  | [] =>
      match result run with
      | Ok _ => True
      | Err NoSession => ctx_session ctx = EmptyString
      | Err (Propagated e) =>
          metadata_NewValue (sharedKeyOf ls) = Err e
          \/ exists v, Value_Unmarshal v = Err e
      end
  end
  /\ Forall (fun e => is_guard e = true) (after_first_failure (calls run)).
Proof.
  intros run. pose proof (Snapshot_runs ls ctx w) as HR.
  fold run in HR. unfold result, calls. destruct run as [[r w'] tr]. simpl in *.
  unfold failures.
  invert_paths; read_calls; (split; [eauto|]);
    repeat match goal with
      | Ha : acquired _ _ ?tr |- context [after_first_failure (?tr ++ _)] =>
          rewrite (acquired_after_first_failure _ _ _ _ Ha)
      end;
    simpl; repeat constructor.
Qed.

Lemma last_cons_app_cons {A} (x e : A) (l rest : list A) :
  last (x :: l ++ e :: rest) = last (e :: rest).
Proof. apply (last_app_cons (x :: l)). Qed.

(** X3.  The deferred closures.  [Unmount] is called at most twice, and never
    again once it has succeeded: the second call is the deferred one, made
    after the first call or an earlier step failed.  [Release] is called at
    most once and is then the last call of Snapshot, after the deferred
    [Unmount]; a [Commit] that succeeds is the last call. *)
Theorem Snapshot_deferred_calls ls ctx w :
  let tr := calls (Snapshot ls ctx w) in
  match unmount_results tr with
  | [] | [_] | [Some _; _] => True
  | _ => False
  end
  /\ match releases tr with
     | [] => True
     | [m] => last tr = Some (ERelease m)
     | _ => False
     end
  /\ match commits tr with
     | [] => True
     | [m] => exists snap, last tr = Some (ECommit m (Ok snap))
     | _ => False
     end.
Proof.
  intros tr. pose proof (Snapshot_runs ls ctx w) as HR.
  subst tr. unfold calls. destruct (Snapshot ls ctx w) as [[r w'] tr]. simpl in *.
  unfold unmount_results, releases, commits.
  invert_paths; read_calls; repeat split; auto;
    rewrite ?last_cons_app_cons; simpl; eauto.
Qed.

(** X4.  Snapshot works on one ref, one mount, one mounted path, one cache
    context and one record: every call that takes a ref takes the ref that
    [GetMutable] or [New] gave out ([Get] takes its ID); the local mount
    and [Unmount] take the mount that [Mount] returned; [CopyDir] writes
    into the path the local mount returned, with the cache context that
    [GetCacheContext] returned, which is also the one [SetCacheContext]
    saves; [SetValue] updates the record that [Get] returned.  [CopyDir]
    reads from the directory mapped to the name, with the identifier as
    its options. *)
Theorem Snapshot_data_flow ls ctx w :
  let tr := calls (Snapshot ls ctx w) in
  all_from (acquisitions tr) (flat_map ref_used_by tr)
  /\ all_from (flat_map mountable_given_by tr) (flat_map mountable_used_by tr)
  /\ all_from (flat_map dest_given_by tr) (flat_map dest_used_by tr)
  /\ all_from (flat_map context_given_by tr) (flat_map context_used_by tr)
  /\ all_from (flat_map read_by tr) (flat_map item_set_by tr)
  /\ Forall (eq (ld_lookup ls (Name (src ls)), src ls)) (flat_map copy_source_of tr).
Proof.
  intros tr. pose proof (Snapshot_runs ls ctx w) as HR.
  subst tr. unfold calls. destruct (Snapshot ls ctx w) as [[r w'] tr]. simpl in *.
  unfold acquisitions, all_from.
  invert_paths; read_calls; repeat split; repeat constructor; by destruct m.
Qed.

Lemma Snapshot_copy_store ls m l dest w :
  store_reading (sharedKeyOf ls)
    (Snapshot_copy ls (sharedKeyOf ls) m l dest w).2
    (out (Snapshot_copy ls (sharedKeyOf ls) m l dest w).1.1).
Proof.
  unfold store_reading, index_calls, store_decision.
  unfold Snapshot_copy, storeSharedKey, attempt, require, propagate, bind, call, ret.
  destruct (contenthash_GetCacheContext m w) as [[e|cc] w1]; simpl; [done|].
  destruct (fsutils_CopyDir _ _ _ _ w1) as [[e|] w2]; simpl; [done|].
  destruct (lm_Unmount l w2) as [[e|] w3]; simpl; [done|].
  destruct (contenthash_SetCacheContext m cc w3) as [[e|] w4]; simpl; [done|].
  destruct (md_Get (ref_ID m) w4) as [si w5].
  destruct (si_values si !! keySharedKey) as [v|] eqn:Hv.
  - destruct (Value_Unmarshal v) as [e|str] eqn:Hu; simpl; [by rewrite ?Hv, ?Hu|].
    destruct (String.eqb str (sharedKeyOf ls)) eqn:Heq; simpl.
    + destruct (ref_Commit m w5) as [[e|snap] w6]; simpl; by rewrite ?Hv, ?Hu, ?Heq.
    + destruct (metadata_NewValue (sharedKeyOf ls)) as [e|v'] eqn:Hn; simpl;
        [by rewrite ?Hv, ?Hu, ?Heq, ?Hn|].
      destruct (si_Update_SetValue _ _ _ _) as [[e|] w6]; simpl.
      * rewrite ?Hv, ?Hu, ?Heq, ?Hn. eexists. split; [done|]. by intros ? [= ->].
      * destruct (ref_Commit m w6) as [[e|snap] w7]; simpl;
          rewrite ?Hv, ?Hu, ?Heq, ?Hn; (eexists; split; [done|]; done).
  - destruct (metadata_NewValue (sharedKeyOf ls)) as [e|v'] eqn:Hn; simpl;
      [by rewrite ?Hv, ?Hn|].
    destruct (si_Update_SetValue _ _ _ _) as [[e|] w6]; simpl.
    + rewrite ?Hv, ?Hn. eexists. split; [done|]. by intros ? [= ->].
    + destruct (ref_Commit m w6) as [[e|snap] w7]; simpl;
        rewrite ?Hv, ?Hn; (eexists; split; [done|]; done).
Qed.

Lemma store_reading_frame K pre tr post r :
  flat_map read_by pre = [] -> index_calls pre = [] ->
  flat_map read_by post = [] -> index_calls post = [] ->
  store_reading K tr r -> store_reading K (pre ++ tr ++ post) r.
Proof.
  unfold store_reading, index_calls. intros Hp1 Hp2 Hq1 Hq2.
  by rewrite !flat_map_app, Hp1, Hp2, Hq1, Hq2, !app_nil_r.
Qed.

Lemma Snapshot_mount_store ls m w :
  store_reading (sharedKeyOf ls)
    (Snapshot_mount ls (sharedKeyOf ls) m w).2
    (out (Snapshot_mount ls (sharedKeyOf ls) m w).1.1).
Proof.
  unfold Snapshot_mount, attempt, bind, call, ret.
  destruct (ref_Mount m w) as [[e|l] w1]; simpl; [done|].
  destruct (lm_Mount l w1) as [[e|dest] w2]; simpl; [done|].
  pose proof (Snapshot_copy_store ls m l dest w2) as Hc.
  destruct (Snapshot_copy ls (sharedKeyOf ls) m l dest w2) as [[x w3] tr]; simpl in *.
  assert (Hu : flat_map read_by (deferred_unmount x w3).2 = []
               /\ index_calls (deferred_unmount x w3).2 = []).
  { unfold deferred_unmount, bind, call, ret.
    destruct (out x); [|done]. destruct (lm x) as [l'|]; [|done].
    by destruct (lm_Unmount l' w3). }
  destruct (deferred_unmount x w3) as [[[] w4] u]; simpl in *.
  rewrite app_nil_r.
  apply (store_reading_frame _ [EMount m (Ok l); ELocalMount l (Ok dest)] tr u);
    tauto.
Qed.

(** X5.  Lines 161-183 decide on the record that [Get] returned.  When the
    record holds under "local.sharedKey" a value that [Unmarshal] reads as
    the shared key, [SetValue] is not called.  When it holds nothing there,
    or a value read as another string, [NewValue] wraps the shared key and
    [SetValue] is called once, for that record, under the shared key, with
    the shared key as index; an error of [SetValue] is the error Snapshot
    returns.  An error of [Unmarshal] or of [NewValue] is returned without
    a call of [SetValue].  [Get] is called at most once, and without it
    [SetValue] is not called. *)
Theorem Snapshot_store_decision ls ctx w :
  let run := Snapshot ls ctx w in
  match flat_map read_by (calls run) with
  | [] => index_calls (calls run) = []
  | [si] => store_decision (sharedKeyOf ls) si (index_calls (calls run)) (result run)
  | _ => False
  end.
Proof.
  intros run. subst run. unfold result, calls.
  change (store_reading (sharedKeyOf ls) (Snapshot ls ctx w).2 (Snapshot ls ctx w).1.1).
  unfold Snapshot, session_FromContext.
  destruct (String.eqb (ctx_session ctx) "") eqn:Hs; [done|].
  unfold attempt, bind, call, ret.
  destruct (md_Search (sharedKeyOf ls) w) as [[e|sis] w1]; simpl; [done|].
  pose proof (range_sis_acquired sis w1) as Ha.
  destruct (range_sis sis w1) as [[found w2] tr]; simpl in *.
  assert (Hrel : forall x w', (deferred_release x w').2 = release_guard x).
  { intros x w'. unfold deferred_release, release_guard, call, ret.
    destruct (out x); [|done]. by destruct (mutable x). }
  assert (Hg : forall x, flat_map read_by (release_guard x) = []
                         /\ index_calls (release_guard x) = []).
  { intros x. unfold release_guard. destruct (out x); [|done]. by destruct (mutable x). }
  assert (Htr : flat_map read_by tr = [] /\ index_calls tr = []).
  { split; by eapply acquired_silent. }
  destruct found as [m|].
  - simpl. pose proof (Snapshot_mount_store ls m w2) as Hm.
    destruct (Snapshot_mount ls (sharedKeyOf ls) m w2) as [[x w3] tr']; simpl in *.
    specialize (Hrel x w3). destruct (Hg x) as [Hg1 Hg2].
    destruct (deferred_release x w3) as [[[] w4] u]; simpl in *. subst u.
    rewrite ?app_nil_r.
    apply (store_reading_frame _ (ESearch (sharedKeyOf ls) (Ok sis) :: tr) tr'
             (release_guard x)); simpl; tauto.
  - destruct (cm_New (description ls) w2) as [[e|m] w3]; simpl.
    + destruct Htr as [Htr1 Htr2]. unfold store_reading, index_calls in *.
      simpl. rewrite ?app_nil_r, ?flat_map_app, Htr1, Htr2. done.
    + pose proof (Snapshot_mount_store ls m w3) as Hm.
      destruct (Snapshot_mount ls (sharedKeyOf ls) m w3) as [[x w4] tr']; simpl in *.
      specialize (Hrel x w4). destruct (Hg x) as [Hg1 Hg2].
      destruct (deferred_release x w4) as [[[] w5] u]; simpl in *. subst u.
      rewrite ?app_nil_r.
      change (store_reading (sharedKeyOf ls)
                ((ESearch (sharedKeyOf ls) (Ok sis) :: tr)
                 ++ (ENew (description ls) (Ok m) :: tr') ++ release_guard x) (out x)).
      apply store_reading_frame; simpl; tauto.
Qed.

End SnapshotCalls.

(** X1 at the first run of the scenario: a new ref, the copy from
    "/tmp/src", the index write, the commit. *)
Lemma Snapshot_success_calls_witness :
  result first_run = Ok {| snap_ID := "snap-0" |}
  /\ exists sis found tried m l dest cc si store,
       acquired sis found tried
       /\ (found = None \/ found = Some m)
       /\ (store = [] \/
           exists v, metadata_NewValue (sharedKeyOf work) = Ok v /\
             store = [ESetValue si (sharedKeyOf work)
                        {| Value_data := Value_data v; Index := sharedKeyOf work |} None])
       /\ calls first_run =
            (ESearch (sharedKeyOf work) (Ok sis) :: tried
             ++ match found with
                | Some _ => []
                | None => [ENew (description work) (Ok m)]
                end
             ++ [EMount m (Ok l); ELocalMount l (Ok dest); EGetCacheContext m (Ok cc);
                 ECopyDir (ld_lookup work (Name (src work))) dest (src work) cc None;
                 EUnmount l None; ESetCacheContext m cc None; EGet (ref_ID m) si]
             ++ store ++ [ECommit m (Ok {| snap_ID := "snap-0" |})])%list.
Proof.
  split; [vm_compute; reflexivity|].
  apply (Snapshot_success_calls work in_session mem_empty {| snap_ID := "snap-0" |}).
  vm_compute; reflexivity.
Defined.

(** ** CacheKey: the shape of the key *)

Lemma sha256_round_length h kw : List.length (sha256_round h kw) = List.length h.
Proof.
  unfold sha256_round.
  do 9 (destruct h as [|? h]; [reflexivity|]). reflexivity.
Qed.

Lemma sha256_rounds_length kws h :
  List.length (foldl sha256_round h kws) = List.length h.
Proof.
  revert h. induction kws as [|kw kws IH]; intros h; simpl; [done|].
  by rewrite IH, sha256_round_length.
Qed.

Lemma sha256_block_length h block : List.length (sha256_block h block) = List.length h.
Proof.
  unfold sha256_block. rewrite length_zip_with, sha256_rounds_length. lia.
Qed.

Lemma sha256_blocks_length blocks h :
  List.length (foldl sha256_block h blocks) = List.length h.
Proof.
  revert h. induction blocks as [|b blocks IH]; intros h; simpl; [done|].
  by rewrite IH, sha256_block_length.
Qed.

Lemma hex_digit_lower n : (n < 16)%N -> is_lower_hex (hex_digit n) = true.
Proof.
  intros Hn.
  assert (Hcases : In n [0; 1; 2; 3; 4; 5; 6; 7; 8; 9; 10; 11; 12; 13; 14; 15]%N).
  { simpl. lia. }
  simpl in Hcases.
  repeat (destruct Hcases as [<-|Hcases]; [reflexivity|]). done.
Qed.

Lemma hex_of_word_shape w :
  String.length (hex_of_word w) = 8%nat
  /\ Forall (fun c => is_lower_hex c = true) (list_ascii_of_string (hex_of_word w)).
Proof.
  unfold hex_of_word. split; [reflexivity|].
  rewrite list_ascii_of_string_of_list_ascii.
  repeat constructor; apply hex_digit_lower, N.mod_lt; done.
Qed.

Lemma list_ascii_of_string_app (a b : string) :
  list_ascii_of_string (a +:+ b) = (list_ascii_of_string a ++ list_ascii_of_string b)%list.
Proof. induction a as [|x a IH]; simpl; [done|]. by rewrite IH. Qed.

Lemma concat_hex_shape ws :
  String.length (String.concat EmptyString (hex_of_word <$> ws)) = (8 * List.length ws)%nat
  /\ Forall (fun c => is_lower_hex c = true)
       (list_ascii_of_string (String.concat EmptyString (hex_of_word <$> ws))).
Proof.
  induction ws as [|w ws [IHl IHf]]; [by split|].
  destruct (hex_of_word_shape w) as [Hl Hf].
  assert (Hnil : forall s : string, s +:+ EmptyString = s).
  { clear. intros s. induction s as [|c s IH]; simpl; [done|]. by rewrite IH. }
  assert (Hc : String.concat EmptyString (hex_of_word <$> w :: ws)
               = hex_of_word w +:+ String.concat EmptyString (hex_of_word <$> ws)).
  { destruct ws as [|w' ws]; [|reflexivity].
    cbn [fmap list_fmap String.concat]. by rewrite Hnil. }
  rewrite Hc, string_app_length, list_ascii_of_string_app, Hl, IHl. split.
  - simpl. lia.
  - by apply Forall_app.
Qed.

Lemma sha256_hex_shape msg :
  String.length (sha256_hex msg) = 64%nat
  /\ Forall (fun c => is_lower_hex c = true) (list_ascii_of_string (sha256_hex msg)).
Proof.
  unfold sha256_hex. cbv zeta.
  destruct (concat_hex_shape
              (foldl sha256_block sha256_init
                 (blocks_of (List.length (words_of (sha256_pad (bytes_of msg))) / 16)
                    (words_of (sha256_pad (bytes_of msg)))))) as [Hl Hf].
  split; [|done]. rewrite Hl, sha256_blocks_length. reflexivity.
Qed.

Lemma string_app_inv_length (a b s t : string) :
  String.length s = String.length t -> a +:+ s = b +:+ t -> a = b /\ s = t.
Proof.
  intros Hl Heq.
  assert (Hlen : String.length a = String.length b).
  { apply (f_equal String.length) in Heq. rewrite !string_app_length in Heq. lia. }
  clear Hl. revert b Heq Hlen.
  induction a as [|x a IH]; intros [|y b] Heq Hlen; simpl in *; try done.
  injection Heq as -> Heq. destruct (IH b Heq) as [-> ->]; [lia|done].
Qed.

(** X6.  The cache key is the word "session", the name, "sha256" and 64 digits
    of lower-case hexadecimal, joined by colons: its length is that of the
    name and 80. *)
Theorem CacheKey_shape ls ctx k :
  CacheKey ls ctx = Ok k ->
  exists h,
    k = "session:" +:+ Name (src ls) +:+ ":sha256:" +:+ h
    /\ String.length h = 64%nat
    /\ Forall (fun c => is_lower_hex c = true) (list_ascii_of_string h)
    /\ String.length k = (String.length (Name (src ls)) + 80)%nat.
Proof.
  intros Hk. apply CacheKey_Ok in Hk. subst k.
  destruct (sha256_hex_shape (serialization ls ctx)) as [Hl Hf].
  exists (sha256_hex (serialization ls ctx)). repeat split; try done.
  rewrite !string_app_length, Hl. simpl. lia.
Qed.

(** X7.  Two cache keys are equal exactly when the names are equal and the
    digests are: a name that contains colons, or that ends like the start
    of a digest, cannot make the key of one directory that of another. *)
Theorem CacheKey_equal_keys ls1 ctx1 ls2 ctx2 k1 k2 :
  CacheKey ls1 ctx1 = Ok k1 ->
  CacheKey ls2 ctx2 = Ok k2 ->
  (k1 = k2 <->
   Name (src ls1) = Name (src ls2)
   /\ sha256_hex (serialization ls1 ctx1) = sha256_hex (serialization ls2 ctx2)).
Proof.
  intros H1 H2. apply CacheKey_Ok in H1, H2. subst k1 k2. split.
  - intros Heq. apply String.app_inj in Heq.
    apply string_app_inv_length in Heq as [Hn Hd].
    + split; [done|]. by do 2 apply String.app_inj in Hd.
    + rewrite !string_app_length.
      by rewrite (proj1 (sha256_hex_shape _)), (proj1 (sha256_hex_shape _)).
  - by intros [-> ->].
Qed.

(** X6 at the key of [work] in its session. *)
Lemma CacheKey_shape_witness :
  CacheKey work in_session
  = Ok "session:work:sha256:55a0712f01c81c6f3a97ddf30ded8d41e60c6c91dacc339ed172d3ff37cc4b42"
  /\ exists h,
       "session:work:sha256:55a0712f01c81c6f3a97ddf30ded8d41e60c6c91dacc339ed172d3ff37cc4b42"
       = "session:" +:+ Name (src work) +:+ ":sha256:" +:+ h
       /\ String.length h = 64%nat
       /\ Forall (fun c => is_lower_hex c = true) (list_ascii_of_string h)
       /\ String.length
            "session:work:sha256:55a0712f01c81c6f3a97ddf30ded8d41e60c6c91dacc339ed172d3ff37cc4b42"
          = (String.length (Name (src work)) + 80)%nat.
Proof.
  assert (Hk : CacheKey work in_session
    = Ok "session:work:sha256:55a0712f01c81c6f3a97ddf30ded8d41e60c6c91dacc339ed172d3ff37cc4b42")
    by (vm_compute; reflexivity).
  split; [exact Hk|].
  exact (CacheKey_shape work in_session _ Hk).
Defined.

(** X7 at [work] and [docs] in one session: the same digest under two
    names, two keys. *)
Lemma CacheKey_equal_keys_witness :
  let k1 := "session:work:sha256:55a0712f01c81c6f3a97ddf30ded8d41e60c6c91dacc339ed172d3ff37cc4b42" in
  let k2 := "session:docs:sha256:55a0712f01c81c6f3a97ddf30ded8d41e60c6c91dacc339ed172d3ff37cc4b42" in
  (CacheKey work in_session = Ok k1 /\ CacheKey docs in_session = Ok k2)
  /\ (k1 = k2 <->
      Name (src work) = Name (src docs)
      /\ sha256_hex (serialization work in_session)
         = sha256_hex (serialization docs in_session)).
Proof.
  intros k1 k2.
  assert (H1 : CacheKey work in_session = Ok k1) by (vm_compute; reflexivity).
  assert (H2 : CacheKey docs in_session = Ok k2) by (vm_compute; reflexivity).
  split; [by split|].
  exact (CacheKey_equal_keys work in_session docs in_session k1 k2 H1 H2).
Defined.

(** ** NewSource and Resolve *)

(** X8.  NewSource never fails, and Resolve on the source it makes checks the
    type of the identifier and nothing else.  An identifier that is nil or
    of another type is refused with "invalid local identifier" and its
    text.  Every non-nil local identifier is accepted, whatever its fields:
    a name that the directories do not map, an empty session ID.  The
    handler then works on the directories given to NewSource, so that the
    shared key of Snapshot ends with what they map the name to.  A nil
    pointer to a local identifier passes the assertion and makes Resolve
    panic. *)
Theorem Resolve_of_NewSource opt id :
  exists ls,
    NewSource opt = Ok ls
    /\ match Resolve ls id with
       | Returned (Ok h) =>
           id = LocalIdentifierPointer (Some (src h))
           /\ ld h = LocalDirs opt
           /\ sharedKeyOf h = "local.sharedKey:" +:+ Name (src h) +:+ ":"
                +:+ SharedKeyHint (src h) +:+ ":"
                +:+ default EmptyString (LocalDirs opt !! Name (src h))
       | Returned (Err err) =>
           err = "invalid local identifier " +:+ fmt_v id
           /\ (id = NilIdentifier \/ exists text, id = OtherIdentifier text)
       | Panicked => id = LocalIdentifierPointer None
       end.
Proof.
  eexists. split; [reflexivity|].
  destruct id as [|[l|]|text]; simpl; eauto.
Qed.

(** ** createWorkerOpt, whatever the other packages do *)

Section createWorkerOpt_facts.
Import client.
Context {W : Type} `{Packages W}.

Lemma createWorkerOpt_built c w :
  Built c (createWorkerOpt c w).1.1 (createWorkerOpt c w).2.
Proof.
  unfold createWorkerOpt, newSnapshotter, attempt, client.bind, client.call, client.ret.
  repeat (case_match; simplify_eq; simpl);
    repeat match goal with
      | H : String.eqb _ _ = _ |- _ => revert H
      end;
    intros;
    first
      [ by constructor
      | by (apply Built_invalid_backend; unfold backend_of;
            repeat match goal with H : String.eqb _ _ = _ |- _ => rewrite H end)
      | match goal with p : (_ * _)%type |- _ => destruct p; simplify_eq/= end;
        econstructor; constructor; unfold backend_of;
        by repeat match goal with H : String.eqb _ _ = _ |- _ => rewrite H end
      | econstructor; constructor; unfold backend_of;
        by repeat match goal with H : String.eqb _ _ = _ |- _ => rewrite H end ].
Qed.

(** X9.  A backend that is none of the three is refused, with the message
    "<backend> is not a valid snapshots backend"; but only after the
    session manager, the metadata store and the executor have been made:
    when they are, the run consists of those calls, in this order, and
    makes no snapshotter, content store or database.  The client is left
    as it was. *)
Theorem createWorkerOpt_invalid_backend c w :
  backend_of (backend c) = None ->
  let run := createWorkerOpt c w in
  client_after run = c
  /\ is_Err (returned run) = true
  /\ Forall (fun e => before_the_switch e = true) (calls_of run)
  /\ (flat_map call_failure (calls_of run) = [] ->
      returned run = Err (backend c +:+ " is not a valid snapshots backend")
      /\ exists sm md euid exe,
           calls_of run =
             [CgetSessionManager (Ok sm);
              CNewStore (filepath_Join (root c) "metadata.db") (Ok md);
              CGetParentNSeuid euid;
              CruncNew (filepath_Join (root c) "executor") (negb (euid =? 0)%Z) (Ok exe)]).
Proof.
  intros Hb run. subst run.
  pose proof (createWorkerOpt_built c w) as HB.
  unfold client_after, returned, calls_of.
  destruct (createWorkerOpt c w) as [[[c' r] w'] tr]. simpl in *.
  (repeat match goal with
            | H : Built _ _ _ |- _ => inversion H; clear H; subst
            | H : chosen _ _ _ _ |- _ => inversion H; clear H; subst
            end);
    simplify_eq/=; repeat split; repeat constructor; try done.
  by repeat eexists.
Qed.

(** X10.  createWorkerOpt stops at the first call that fails: that call is the
    last one it makes.  It returns the error of that call as it is, except
    that of a snapshotter constructor, which it returns as
    "creating <backend> snapshotter failed: <error>".  When no call fails
    it returns the options, or refuses the backend. *)
Theorem createWorkerOpt_returns_the_first_failure c w :
  let run := createWorkerOpt c w in
  match flat_map call_failure (calls_of run) with
  | [] =>
      match returned run with
      | Ok _ => True
      | Err err =>
          err = backend c +:+ " is not a valid snapshots backend"
          /\ backend_of (backend c) = None
      end
  | [(snapshotter, err)] =>
      (exists failing, last (calls_of run) = Some failing
                       /\ call_failure failing = [(snapshotter, err)])
      /\ returned run =
           Err (if snapshotter
                then "creating " +:+ backend c +:+ " snapshotter failed: " +:+ err
                else err)
  | _ => False
  end.
Proof.
  intros run. subst run.
  pose proof (createWorkerOpt_built c w) as HB.
  unfold client_after, returned, calls_of.
  destruct (createWorkerOpt c w) as [[[c' r] w'] tr]. simpl in *.
  (repeat match goal with
            | H : Built _ _ _ |- _ => inversion H; clear H; subst
            | H : chosen _ _ _ _ |- _ => inversion H; clear H; subst
            end);
    simpl; try done;
    repeat match goal with r : option _ |- _ => destruct r end;
    (split; [|done]); eexists; (split; [reflexivity|done]).
Qed.

(** X11.  The switch of line 49 calls at most one snapshotter constructor, the
    one of the client's backend, on the directory "snapshots" under the
    root.  Only the FUSE case touches the client: it stores the server that
    the constructor returned, also when the constructor failed.  Without a
    snapshotter made, createWorkerOpt fails. *)
Theorem createWorkerOpt_snapshotter_choice c w :
  let run := createWorkerOpt c w in
  match flat_map snapshotter_call (calls_of run) with
  | [] => is_Err (returned run) = true /\ client_after run = c
  | [(b, path)] =>
      backend_of (backend c) = Some b
      /\ path = filepath_Join (root c) "snapshots"
      /\ match b, flat_map server_returned (calls_of run) with
         | FUSE, [server] => client_after run = set_fuseserver server c
         | FUSE, _ => False
         | _, servers => servers = [] /\ client_after run = c
         end
  | _ => False
  end.
Proof.
  intros run. subst run.
  pose proof (createWorkerOpt_built c w) as HB.
  unfold client_after, returned, calls_of.
  destruct (createWorkerOpt c w) as [[[c' r] w'] tr]. simpl in *.
  (repeat match goal with
            | H : Built _ _ _ |- _ => inversion H; clear H; subst
            | H : chosen _ _ _ _ |- _ => inversion H; clear H; subst
            end);
    simpl; done.
Qed.

(** X12.  When createWorkerOpt succeeds it has made, in this order, the session
    manager, the metadata store at "metadata.db", the executor at
    "executor" (rootless exactly when the user of the parent namespace is
    not 0), the snapshotter, the content store at "content" and the
    database at "containerdmeta.db", all under the root, initialized the
    metadata database and read the worker's ID.  The options are wired to
    one metadata database, which holds the local content store, the bolt
    database and, under the backend's name, the snapshotter made: the
    worker's snapshotter wraps that very snapshotter (the lookup by the
    backend's name never misses), the worker's content store is the
    "buildkit" namespace of the database, and the snapshotter, the applier
    and the differ all work on it; the snapshotter and the worker share
    the metadata store. *)
Theorem createWorkerOpt_success c w opt :
  returned (createWorkerOpt c w) = Ok opt ->
  exists sm md euid exe s store db mdb b,
    calls_of (createWorkerOpt c w) =
      [CgetSessionManager (Ok sm);
       CNewStore (filepath_Join (root c) "metadata.db") (Ok md);
       CGetParentNSeuid euid;
       CruncNew (filepath_Join (root c) "executor") (negb (euid =? 0)%Z) (Ok exe);
       b;
       ClocalNewStore (filepath_Join (root c) "content") (Ok store);
       CboltOpen (filepath_Join (root c) "containerdmeta.db") 420 (Ok db);
       CInit mdb None;
       CbaseID (root c) (Ok (ID opt))]
    /\ snapshotter_call b
       = option_list ((fun k => (k, filepath_Join (root c) "snapshots"))
                        <$> backend_of (backend c))
    /\ snapshotter_returned b = [s]
    /\ mdb = {| mdb_db := db; mdb_cs := store; mdb_ss := {[ backend c := s ]} |}
    /\ SessionManager opt = sm /\ MetadataStore opt = md /\ Executor opt = exe
    /\ Labels opt = {| labels_executor := "oci"; labels_snapshotter := backend c |}
    /\ ImageStore opt = mdb
    /\ ContentStore opt = content_Namespaced mdb "buildkit" {| gc_db := mdb |}
    /\ Applier opt = ContentStore opt /\ Differ opt = ContentStore opt
    /\ Snapshotter opt =
         {| ws_snapshotter := Some s; ws_store := ContentStore opt; ws_md := md;
            ws_ns := "buildkit"; ws_gc := {| gc_db := mdb |} |}.
Proof.
  pose proof (createWorkerOpt_built c w) as HB.
  unfold client_after, returned, calls_of.
  destruct (createWorkerOpt c w) as [[[c' r] w'] tr]. simpl in *.
  intros ->.
  (repeat match goal with
            | H : Built _ _ _ |- _ => inversion H; clear H; subst
            | H : chosen _ _ _ _ |- _ => inversion H; clear H; subst
            end);
    match goal with Hb : backend_of _ = _ |- _ => rewrite Hb end;
    unfold options, mdb_Snapshotter; simpl; rewrite lookup_singleton, decide_True by done;
    by repeat eexists.
Qed.

End createWorkerOpt_facts.

Import client.

(** X9 at a backend named "zfs", on a host where nothing fails. *)
Lemma createWorkerOpt_invalid_backend_witness :
  let c := img "zfs" in
  let run := createWorkerOpt c (host 1000 []) in
  backend_of (backend c) = None
  /\ client_after run = c
  /\ is_Err (returned run) = true
  /\ Forall (fun e => before_the_switch e = true) (calls_of run)
  /\ (flat_map call_failure (calls_of run) = [] ->
      returned run = Err (backend c +:+ " is not a valid snapshots backend")
      /\ exists sm md euid exe,
           calls_of run =
             [CgetSessionManager (Ok sm);
              CNewStore (filepath_Join (root c) "metadata.db") (Ok md);
              CGetParentNSeuid euid;
              CruncNew (filepath_Join (root c) "executor") (negb (euid =? 0)%Z) (Ok exe)]).
Proof.
  intros c run. split; [reflexivity|].
  apply (createWorkerOpt_invalid_backend c (host 1000 [])). reflexivity.
Defined.

(** X12 at the overlayfs backend, run by the user 1000 of the parent
    namespace, on a host where nothing fails. *)
Lemma createWorkerOpt_success_witness :
  let c := img "overlayfs" in
  let run := createWorkerOpt c (host 1000 []) in
  exists opt,
    returned run = Ok opt
    /\ ID opt = "worker-of-/var/img"
    /\ exists sm md euid exe s store db mdb b,
         calls_of run =
           [CgetSessionManager (Ok sm);
            CNewStore (filepath_Join (root c) "metadata.db") (Ok md);
            CGetParentNSeuid euid;
            CruncNew (filepath_Join (root c) "executor") (negb (euid =? 0)%Z) (Ok exe);
            b;
            ClocalNewStore (filepath_Join (root c) "content") (Ok store);
            CboltOpen (filepath_Join (root c) "containerdmeta.db") 420 (Ok db);
            CInit mdb None;
            CbaseID (root c) (Ok (ID opt))]
         /\ snapshotter_call b
            = option_list ((fun k => (k, filepath_Join (root c) "snapshots"))
                             <$> backend_of (backend c))
         /\ snapshotter_returned b = [s]
         /\ mdb = {| mdb_db := db; mdb_cs := store; mdb_ss := {[ backend c := s ]} |}
         /\ SessionManager opt = sm /\ MetadataStore opt = md /\ Executor opt = exe
         /\ Labels opt = {| labels_executor := "oci"; labels_snapshotter := backend c |}
         /\ ImageStore opt = mdb
         /\ ContentStore opt = content_Namespaced mdb "buildkit" {| gc_db := mdb |}
         /\ Applier opt = ContentStore opt /\ Differ opt = ContentStore opt
         /\ Snapshotter opt =
              {| ws_snapshotter := Some s; ws_store := ContentStore opt; ws_md := md;
                 ws_ns := "buildkit"; ws_gc := {| gc_db := mdb |} |}.
Proof.
  intros c run. eexists. split; [reflexivity|]. split; [reflexivity|].
  apply (createWorkerOpt_success c (host 1000 [])). reflexivity.
Defined.
